(** * scDCC utilities: pairwise-constraint generators and clustering accuracy

    A shallow embedding of [utils_xiang.py]: the clustering accuracy
    evaluator [cluster_acc] and the six executable generators of must-link /
    cannot-link pairs, with the properties of their sampling loops. *)

From Stdlib Require Import ZArith QArith Qround Lia Lqa List Permutation.
From stdpp Require Import base tactics list.
Import ListNotations.

Local Open Scope nat_scope.

(** ** Python outcomes *)

(** The exceptions the modelled code can raise. *)
Inductive exn : Type :=
| AssertionError
| ValueError
| IndexError.

(** A call either returns a value or raises. *)
Inductive result (A : Type) : Type :=
| Ok (a : A)
| Raise (e : exn).
Arguments Ok {A} a.
Arguments Raise {A} e.

(** Sequencing: an exception aborts what follows. *)
#[global] Instance result_bind : MBind result := fun A B k r =>
  match r with
  | Ok a => k a
  | Raise e => Raise e
  end.

(** Sums of machine integers ([sum(...)] over a Python list). *)
Definition Zsum (l : list Z) : Z := foldr Z.add 0%Z l.

(** * Clustering accuracy *)

(** Label vectors hold non-negative integers; [w] holds [int64] counts, which
    never exceed the number of samples. *)
Abbreviation counts := (list (list Z)).

(** [a.max()] of a numpy vector: no identity on an empty array. *)
Definition np_max (a : list nat) : result nat :=
  match a with
  | [] => Raise ValueError
  | _ :: _ => Ok (max_list a)
  end.

(** [np.zeros((r, c), dtype=np.int64)] *)
Definition zeros (r c : nat) : counts := replicate r (replicate c 0%Z).

(** [w[p, t] += 1] *)
Definition incr (w : counts) (p t : nat) : counts :=
  alter (alter Z.succ t) p w.

(** [w[i, j]] for indices inside the array. *)
Definition entry (w : counts) (i j : nat) : Z :=
  default 0%Z (w !! i ≫= (.!! j)).

(** The loop [for i in range(y_pred.size): w[y_pred[i], y_true[i]] += 1],
    both vectors having the same size at this point. *)
Definition contingency (D : nat) (y_pred y_true : list nat) : counts :=
  foldl (fun w pt => incr w pt.1 pt.2) (zeros D D) (zip y_pred y_true).

(** [w.max()] of a matrix with at least one entry. *)
Definition matrix_max (w : counts) : Z :=
  foldr Z.max 0%Z (concat w).

(** [w.max() - w] *)
Definition flip_costs (w : counts) : counts :=
  let m := matrix_max w in map (map (fun x => (m - x)%Z)) w.

(** Total cost of assigning row [i] to column [sigma[i]]. *)
Definition assignment_cost (C : counts) (sigma : list nat) : Z :=
  Zsum (map (fun ij => entry C ij.1 ij.2) (zip (seq 0 (length sigma)) sigma)).

(** First element of [d :: l] with the least value of [f]. *)
Fixpoint argmin {A : Type} (f : A -> Z) (d : A) (l : list A) : A :=
  match l with
  | [] => d
  | x :: l' => let y := argmin f x l' in if (f y <? f d)%Z then y else d
  end.

(** [sklearn.utils.linear_assignment_.linear_assignment] on a square cost
    matrix: a minimum-cost one-to-one assignment of rows to columns, returned
    as the (row, column) pairs in row order.  The library runs the Hungarian
    method; the model searches all assignments, which selects the same
    minimum cost. *)
Definition linear_assignment (C : counts) : list (nat * nat) :=
  let rows := seq 0 (length C) in
  match permutations rows with
  | [] => []
  | s :: ss => zip rows (argmin (assignment_cost C) s ss)
  end.

(** [cluster_acc(y_true, y_pred)]; the cast of [y_true] to [int64] changes
    nothing on integer labels. *)
Definition cluster_acc (y_true y_pred : list nat) : result Q :=
  if negb (length y_pred =? length y_true) then Raise AssertionError
  else
    pmax ← np_max y_pred;
    tmax ← np_max y_true;
    let D := Nat.max pmax tmax + 1 in
    let w := contingency D y_pred y_true in
    let ind := linear_assignment (flip_costs w) in
    Ok (inject_Z (Zsum (map (fun ij => entry w ij.1 ij.2) ind)) * 1
        / inject_Z (Z.of_nat (length y_pred)))%Q.

(** Number of samples with predicted label [p] and true label [t]. *)
Definition cooc (y_pred y_true : list nat) (p t : nat) : Z :=
  Z.of_nat (length (filter (fun pt => pt = (p, t)) (zip y_pred y_true))).

(** Agreement collected by an assignment [sigma] of the [D] predicted labels. *)
Definition score (c : nat -> nat -> Z) (D : nat) (sigma : list nat) : Z :=
  Zsum (map (fun i => c i (nth i sigma 0)) (seq 0 D)).

(** [sigma] is a one-to-one assignment of [0..D-1] of maximal agreement. *)
Definition optimal (c : nat -> nat -> Z) (D : nat) (sigma : list nat) : Prop :=
  sigma ≡ₚ seq 0 D /\
  forall tau, tau ≡ₚ seq 0 D -> (score c D tau <= score c D sigma)%Z.

(** * Pairwise-constraint generators *)

(** ** Random sources *)

(** A generator is the stream of its raw draws and a cursor into it.  The
    sampling loops draw from Python's [random]; the final shuffles draw from
    [numpy.random]: two independent generators. *)
Record rng : Type := Rng { draws : nat -> nat; pos : nat }.

(** The next raw draw, and the generator after it. *)
Definition next (g : rng) : nat * rng :=
  (draws g (pos g), Rng (draws g) (S (pos g))).

(** [random.randint(0, n - 1)]: uniform on [0 .. n-1], empty range refused. *)
Definition randint0 (n : nat) (g : rng) : result (nat * rng) :=
  match n with
  | 0 => Raise ValueError
  | S _ => let (r, g') := next g in Ok (r mod n, g')
  end.

(** [random.choice(pool)] *)
Definition choice (pool : list nat) (g : rng) : result (nat * rng) :=
  match pool with
  | [] => Raise IndexError
  | _ :: _ => let (r, g') := next g in Ok (nth (r mod length pool) pool 0, g')
  end.

(** [x] placed at position [i] of [l]. *)
Definition insert_at {A : Type} (i : nat) (x : A) (l : list A) : list A :=
  take i l ++ x :: drop i l.

(** [np.random.permutation(n)]: some arrangement of [0 .. n-1], decided by
    the draws; each new index goes to a drawn position among the earlier
    ones, so every arrangement is reachable. *)
Fixpoint np_permutation (n : nat) (g : rng) : list nat * rng :=
  match n with
  | 0 => ([], g)
  | S m =>
      let (p, g1) := np_permutation m g in
      let (r, g2) := next g1 in
      (insert_at (r mod S m) m p, g2)
  end.

(** [a[index]] for an index array. *)
Fixpoint take_indices (a : list nat) (index : list nat) : result (list nat) :=
  match index with
  | [] => Ok []
  | i :: index' =>
      match a !! i with
      | Some x => xs ← take_indices a index'; Ok (x :: xs)
      | None => Raise IndexError
      end
  end.

(** ** Constraint lists *)

Record pairs : Type := Pairs {
  ml_ind1 : list nat;
  ml_ind2 : list nat;
  cl_ind1 : list nat;
  cl_ind2 : list nat
}.

Definition no_pairs : pairs := Pairs [] [] [] [].

(** [ml_ind1.append(tmp1); ml_ind2.append(tmp2)] *)
Definition add_ml (tmp1 tmp2 : nat) (p : pairs) : pairs :=
  Pairs (ml_ind1 p ++ [tmp1]) (ml_ind2 p ++ [tmp2]) (cl_ind1 p) (cl_ind2 p).

(** [cl_ind1.append(tmp1); cl_ind2.append(tmp2)] *)
Definition add_cl (tmp1 tmp2 : nat) (p : pairs) : pairs :=
  Pairs (ml_ind1 p) (ml_ind2 p) (cl_ind1 p ++ [tmp1]) (cl_ind2 p ++ [tmp2]).

(** The helper each generator defines for itself, with the same body. *)
Definition check_ind (ind1 ind2 : nat) (ind_list1 ind_list2 : list nat) : bool :=
  existsb (fun l => (ind1 =? l.1) && (ind2 =? l.2)) (zip ind_list1 ind_list2).

(** The lines shared by every generator after its loop: one permutation for
    the must-link arrays, a second one for the cannot-link arrays. *)
Definition shuffle (p : pairs) (np : rng) : result pairs :=
  let (ml_index, np1) := np_permutation (length (ml_ind1 p)) np in
  let (cl_index, np2) := np_permutation (length (cl_ind1 p)) np1 in
  m1 ← take_indices (ml_ind1 p) ml_index;
  m2 ← take_indices (ml_ind2 p) ml_index;
  c1 ← take_indices (cl_ind1 p) cl_index;
  c2 ← take_indices (cl_ind2 p) cl_index;
  Ok (Pairs m1 m2 c1 c2).

(** ** Loops *)

(** The local variables of a sampling loop: the four lists, the counters of
    the variant, and Python's generator. *)
Record state (C : Type) : Type := St { acc : pairs; ctr : C; py : rng }.
Arguments St {C} acc ctr py.
Arguments acc {C} s.
Arguments ctr {C} s.
Arguments py {C} s.

(** [while cond: body], run for at most [fuel] iterations; [None] when the
    loop is still running after them. *)
Fixpoint while {S : Type} (fuel : nat) (cond : S -> bool)
    (body : S -> result S) (s : S) : option (result S) :=
  if cond s then
    match fuel with
    | 0 => None
    | S fuel' =>
        match body s with
        | Ok s' => while fuel' cond body s'
        | Raise e => Some (Raise e)
        end
    end
  else Some (Ok s).

(** What follows a loop, when it ends. *)
Definition and_then {S A : Type} (o : option (result S)) (k : S -> result A)
    : option (result A) :=
  match o with
  | Some r => Some (r ≫= k)
  | None => None
  end.

(** What precedes a loop and may raise. *)
Definition after {T A : Type} (pre : result T) (k : T -> option (result A))
    : option (result A) :=
  match pre with
  | Ok t => k t
  | Raise e => Some (Raise e)
  end.

(** Budgets of [generate_random_pair_from_one_CD] are halves of integers. *)
Definition Qpos (q : Q) : bool := negb (Qle_bool q 0).

(** ** Numeric library *)

(** Floating-point numbers and the numpy, scipy and scikit-learn routines the
    generators call are taken as an interface: the properties below hold for
    every implementation of it. *)
Class NumLib : Type := {
  F : Type;
  Fzero : F;
  (** [a < b] and [a <= b]; [a > b] is [b < a]. *)
  Flt : F -> F -> bool;
  Fle : F -> F -> bool;
  Fsub : F -> F -> F;
  Fmul : F -> F -> F;
  (** an integer operand of a mixed comparison or product *)
  Fint : Z -> F;
  (** [scipy.linalg.norm(v, 2)] *)
  norm : list F -> F;
  (** [np.quantile(a, q)] and [np.percentile(a, q)] *)
  np_quantile : list F -> F -> result F;
  np_percentile : list F -> F -> result F;
  (** [sklearn.metrics.pairwise.euclidean_distances(X, Y)], row by row *)
  euclidean_distances : list (list F) -> list (list F) -> result (list (list F));
  (** [KMeans(n_clusters, n_init=20).fit(X).labels_] *)
  kmeans_labels : nat -> list (list F) -> result (list nat)
}.

Section Generators.
Context `{NumLib}.

Definition Fgt (a b : F) : bool := Flt b a.

(** A two-dimensional numpy array. *)
Record ndarray : Type := Ndarray {
  shape0 : nat;
  shape1 : nat;
  cell : nat -> nat -> F
}.

(** [a[i]] and [a[i, :]] *)
Definition row (a : ndarray) (i : nat) : result (list F) :=
  if i <? shape0 a then Ok (map (cell a i) (seq 0 (shape1 a)))
  else Raise IndexError.

(** [a[i]] for [i] drawn by [randint(0, a.shape[0] - 1)] *)
Definition row_at (a : ndarray) (i : nat) : list F :=
  map (cell a i) (seq 0 (shape1 a)).

(** The array as the list of its rows, for the library routines. *)
Definition rows (a : ndarray) : list (list F) :=
  map (row_at a) (seq 0 (shape0 a)).

(** [u - v] on vectors of one length *)
Definition vsub (u v : list F) : list F := zip_with Fsub u v.

(** [np.tril(d, -1)] on a matrix given by its rows *)
Definition tril1 (d : list (list F)) : list (list F) :=
  imap (fun i r => imap (fun j x => if j <? i then x else Fzero) r) d.

(** The distance the loops test: [norm(a[i] - a[j], 2)]. *)
Definition pair_norm (a : ndarray) (i j : nat) : F :=
  norm (vsub (row_at a i) (row_at a j)).

(** The two cutoffs of the distance-based generators: quantiles of the
    strictly-lower-triangular, non-zero pairwise distances. *)
Definition distance_cutoffs (latent_embedding : ndarray) (ML CL : F)
    : result (F * F) :=
  latent_dist ← euclidean_distances (rows latent_embedding) (rows latent_embedding);
  let latent_dist_tril := tril1 latent_dist in
  let latent_dist_vec := concat latent_dist_tril in
  let latent_dist_vec := filter (fun d => Fgt d Fzero = true) latent_dist_vec in
  cutoff_ML ← np_quantile latent_dist_vec ML;
  cutoff_CL ← np_quantile latent_dist_vec CL;
  Ok (cutoff_ML, cutoff_CL).

(** *** generate_random_pair *)

(** Counters: [(num, error_num)]. *)
Definition random_pair_cond (s : state (Z * Z)) : bool := (0 <? (ctr s).1)%Z.

Definition random_pair_body (y : list Z) (label_cell_indx : list nat)
    (num0 : Z) (error_rate : F) (s : state (Z * Z)) : result (state (Z * Z)) :=
  let '(num, error_num) := ctr s in
  '(tmp1, g) ← choice label_cell_indx (py s);
  '(tmp2, g) ← choice label_cell_indx g;
  if tmp1 =? tmp2 then Ok (St (acc s) (num, error_num) g)
  else if check_ind tmp1 tmp2 (ml_ind1 (acc s)) (ml_ind2 (acc s))
  then Ok (St (acc s) (num, error_num) g)
  else
    match y !! tmp1, y !! tmp2 with
    | Some y1, Some y2 =>
        if (y1 =? y2)%Z then
          if Fle (Fmul error_rate (Fint num0)) (Fint error_num)
          then Ok (St (add_ml tmp1 tmp2 (acc s)) (num - 1, error_num)%Z g)
          else Ok (St (add_cl tmp1 tmp2 (acc s)) (num - 1, error_num + 1)%Z g)
        else
          if Fle (Fmul error_rate (Fint num0)) (Fint error_num)
          then Ok (St (add_cl tmp1 tmp2 (acc s)) (num - 1, error_num)%Z g)
          else Ok (St (add_ml tmp1 tmp2 (acc s)) (num - 1, error_num + 1)%Z g)
    | _, _ => Raise IndexError
    end.

Definition random_pair_loop (fuel : nat) (y : list Z)
    (label_cell_indx : list nat) (num : Z) (error_rate : F) (g : rng)
    : option (result (state (Z * Z))) :=
  while fuel random_pair_cond
    (random_pair_body y label_cell_indx num error_rate)
    (St no_pairs (num, 0%Z) g).

Definition generate_random_pair (fuel : nat) (y : list Z)
    (label_cell_indx : list nat) (num : Z) (error_rate : F) (g np : rng)
    : option (result (pairs * Z)) :=
  and_then (random_pair_loop fuel y label_cell_indx num error_rate g)
    (fun s => out ← shuffle (acc s) np; Ok (out, (ctr s).2)).

(** *** generate_random_pair_from_proteins *)

(** [while num > 0], for the loops whose only counter is [num]. *)
Definition num_cond (s : state Z) : bool := (0 <? ctr s)%Z.

Definition proteins_body (latent_embedding : ndarray) (cutoff_ML cutoff_CL : F)
    (s : state Z) : result (state Z) :=
  let num := ctr s in
  '(tmp1, g) ← randint0 (shape0 latent_embedding) (py s);
  '(tmp2, g) ← randint0 (shape0 latent_embedding) g;
  if tmp1 =? tmp2 then Ok (St (acc s) num g)
  else if check_ind tmp1 tmp2 (ml_ind1 (acc s)) (ml_ind2 (acc s))
  then Ok (St (acc s) num g)
  else if Flt (pair_norm latent_embedding tmp1 tmp2) cutoff_ML
  then Ok (St (add_ml tmp1 tmp2 (acc s)) (num - 1)%Z g)
  else if Fgt (pair_norm latent_embedding tmp1 tmp2) cutoff_CL
  then Ok (St (add_cl tmp1 tmp2 (acc s)) (num - 1)%Z g)
  else Ok (St (acc s) num g).

Definition proteins_loop (fuel : nat) (latent_embedding : ndarray) (num : Z)
    (ML CL : F) (g : rng) : option (result (state Z)) :=
  after (distance_cutoffs latent_embedding ML CL) (fun cut =>
    while fuel num_cond (proteins_body latent_embedding cut.1 cut.2)
      (St no_pairs num g)).

Definition generate_random_pair_from_proteins (fuel : nat)
    (latent_embedding : ndarray) (num : Z) (ML CL : F) (g np : rng)
    : option (result pairs) :=
  and_then (proteins_loop fuel latent_embedding num ML CL g)
    (fun s => shuffle (acc s) np).

(** *** generate_random_pair_from_two_CDs *)

(** The four percentile thresholds [(lc1, lc2, mc1, mc2)]. *)
Definition two_CDs_thresholds (latent_embedding : ndarray) (LC HC : F)
    : result (F * F * F * F) :=
  r0 ← row latent_embedding 0;
  lc1 ← np_percentile r0 LC;
  r1 ← row latent_embedding 1;
  lc2 ← np_percentile r1 LC;
  mc1 ← np_percentile r0 HC;
  mc2 ← np_percentile r1 HC;
  Ok (lc1, lc2, mc1, mc2).

(** Counters: [(num, k)]. *)
Definition two_CDs_cond (cap : Z) (s : state (Z * Z)) : bool :=
  (0 <? (ctr s).1)%Z && ((ctr s).2 <? cap)%Z.

Definition two_CDs_body (e : ndarray) (th : F * F * F * F)
    (s : state (Z * Z)) : result (state (Z * Z)) :=
  let '(lc1, lc2, mc1, mc2) := th in
  let '(num, k) := ctr s in
  let k := (k + 1)%Z in
  '(tmp1, g) ← randint0 (shape1 e) (py s);
  '(tmp2, g) ← randint0 (shape1 e) g;
  if tmp1 =? tmp2 then Ok (St (acc s) (num, k) g)
  else if check_ind tmp1 tmp2 (ml_ind1 (acc s)) (ml_ind2 (acc s))
  then Ok (St (acc s) (num, k) g)
  else if (Fgt (cell e 0 tmp1) mc1 && Fgt (cell e 0 tmp2) mc1)
          && (Fle (cell e 1 tmp1) lc2 && Fle (cell e 1 tmp2) lc2)
  then Ok (St (add_ml tmp1 tmp2 (acc s)) (num - 1, k)%Z g)
  else if (Fle (cell e 0 tmp1) lc1 && Fle (cell e 0 tmp2) lc1)
          && (Fgt (cell e 1 tmp1) mc2 && Fgt (cell e 1 tmp2) mc2)
  then Ok (St (add_ml tmp1 tmp2 (acc s)) (num - 1, k)%Z g)
  else if (Fgt (cell e 0 tmp1) mc1 && Fle (cell e 1 tmp1) lc2)
          && (Fle (cell e 0 tmp2) lc1 && Fgt (cell e 1 tmp2) mc2)
  then Ok (St (add_cl tmp1 tmp2 (acc s)) (num - 1, k)%Z g)
  else if (Fle (cell e 0 tmp1) lc1 && Fgt (cell e 1 tmp1) mc2)
          && (Fgt (cell e 0 tmp2) mc1 && Fle (cell e 1 tmp2) lc2)
  then Ok (St (add_cl tmp1 tmp2 (acc s)) (num - 1, k)%Z g)
  else Ok (St (acc s) (num, k) g).

Definition two_CDs_cap : Z := (20000 ^ 2)%Z.

Definition two_CDs_loop (cap : Z) (fuel : nat) (latent_embedding : ndarray)
    (num : Z) (LC HC : F) (g : rng) : option (result (state (Z * Z))) :=
  after (two_CDs_thresholds latent_embedding LC HC) (fun th =>
    while fuel (two_CDs_cond cap) (two_CDs_body latent_embedding th)
      (St no_pairs (num, 0%Z) g)).

Definition generate_random_pair_from_two_CDs (fuel : nat)
    (latent_embedding : ndarray) (num : Z) (LC HC : F) (g np : rng)
    : option (result pairs) :=
  and_then (two_CDs_loop two_CDs_cap fuel latent_embedding num LC HC g)
    (fun s => shuffle (acc s) np).

(** *** generate_random_pair_from_one_CD *)

Definition one_CD_thresholds (latent_embedding : ndarray) (LC HC : F)
    (gene : nat) : result (F * F) :=
  r ← row latent_embedding gene;
  lc1 ← np_percentile r LC;
  mc1 ← np_percentile r HC;
  Ok (lc1, mc1).

(** Counters: [(num1, num2, k)].  The two budgets start at [num / 2], a
    true division in Python 3: a float, which holds halves of integers
    exactly. *)
Definition one_CD_cond (cap : Z) (s : state (Q * Q * Z)) : bool :=
  let '(num1, num2, k) := ctr s in
  (Qpos num1 || Qpos num2) && (k <? cap)%Z.

Definition one_CD_body (e : ndarray) (th : F * F) (gene : nat)
    (s : state (Q * Q * Z)) : result (state (Q * Q * Z)) :=
  let '(lc1, mc1) := th in
  let '(num1, num2, k) := ctr s in
  let k := (k + 1)%Z in
  '(tmp1, g) ← randint0 (shape1 e) (py s);
  '(tmp2, g) ← randint0 (shape1 e) g;
  if tmp1 =? tmp2 then Ok (St (acc s) (num1, num2, k) g)
  else if check_ind tmp1 tmp2 (ml_ind1 (acc s)) (ml_ind2 (acc s))
  then Ok (St (acc s) (num1, num2, k) g)
  else if (Fgt (cell e gene tmp1) mc1 && Fgt (cell e gene tmp2) mc1)
          && Qpos num1
  then Ok (St (add_ml tmp1 tmp2 (acc s)) ((num1 - 1)%Q, num2, k) g)
  else if (Fgt (cell e gene tmp1) mc1 && Fle (cell e gene tmp2) lc1)
          && Qpos num2
  then Ok (St (add_cl tmp1 tmp2 (acc s)) (num1, (num2 - 1)%Q, k) g)
  else if (Fle (cell e gene tmp1) lc1 && Fgt (cell e gene tmp2) mc1)
          && Qpos num2
  then Ok (St (add_cl tmp1 tmp2 (acc s)) (num1, (num2 - 1)%Q, k) g)
  else Ok (St (acc s) (num1, num2, k) g).

Definition one_CD_cap : Z := 1000000%Z.

Definition one_CD_loop (cap : Z) (fuel : nat) (latent_embedding : ndarray)
    (num : Z) (LC HC : F) (gene : nat) (g : rng)
    : option (result (state (Q * Q * Z))) :=
  after (one_CD_thresholds latent_embedding LC HC gene) (fun th =>
    let num1 := (inject_Z num / 2)%Q in
    let num2 := (inject_Z num / 2)%Q in
    while fuel (one_CD_cond cap) (one_CD_body latent_embedding th gene)
      (St no_pairs (num1, num2, 0%Z) g)).

Definition generate_random_pair_from_one_CD (fuel : nat)
    (latent_embedding : ndarray) (num : Z) (LC HC : F) (gene : nat)
    (g np : rng) : option (result pairs) :=
  and_then (one_CD_loop one_CD_cap fuel latent_embedding num LC HC gene g)
    (fun s => shuffle (acc s) np).

(** *** generate_random_pair_from_CD_markers *)

Record marker_cutoffs : Type := MarkerCutoffs {
  gene_low1 : F; gene_high1 : F; gene_low2 : F; gene_high2 : F;
  gene_low1_ml : F; gene_high1_ml : F; gene_low2_ml : F; gene_high2_ml : F;
  gene_low3 : F; gene_high3 : F; gene_low4 : F; gene_high4 : F
}.

Definition CD_markers_cutoffs (markers : ndarray) (low1 high1 low2 high2 : F)
    : result marker_cutoffs :=
  m0 ← row markers 0;
  gene_low1 ← np_quantile m0 low1;
  gene_high1 ← np_quantile m0 high1;
  m1 ← row markers 1;
  gene_low2 ← np_quantile m1 low1;
  gene_high2 ← np_quantile m1 high1;
  gene_low1_ml ← np_quantile m0 low2;
  gene_high1_ml ← np_quantile m0 high2;
  gene_low2_ml ← np_quantile m1 low2;
  gene_high2_ml ← np_quantile m1 high2;
  m2 ← row markers 2;
  gene_low3 ← np_quantile m2 low2;
  gene_high3 ← np_quantile m2 high2;
  m3 ← row markers 3;
  gene_low4 ← np_quantile m3 low2;
  gene_high4 ← np_quantile m3 high2;
  Ok (MarkerCutoffs gene_low1 gene_high1 gene_low2 gene_high2
        gene_low1_ml gene_high1_ml gene_low2_ml gene_high2_ml
        gene_low3 gene_high3 gene_low4 gene_high4).

Definition CD_markers_body (markers : ndarray) (c : marker_cutoffs)
    (s : state Z) : result (state Z) :=
  let num := ctr s in
  '(tmp1, g) ← randint0 (shape1 markers) (py s);
  '(tmp2, g) ← randint0 (shape1 markers) g;
  if tmp1 =? tmp2 then Ok (St (acc s) num g)
  else if check_ind tmp1 tmp2 (ml_ind1 (acc s)) (ml_ind2 (acc s))
  then Ok (St (acc s) num g)
  else if Flt (cell markers 0 tmp1) (gene_low1 c)
          && Fgt (cell markers 1 tmp1) (gene_high2 c)
          && Fgt (cell markers 0 tmp2) (gene_high1 c)
          && Flt (cell markers 1 tmp2) (gene_low2 c)
  then Ok (St (add_cl tmp1 tmp2 (acc s)) (num - 1)%Z g)
  else if Flt (cell markers 0 tmp2) (gene_low1 c)
          && Fgt (cell markers 1 tmp2) (gene_high2 c)
          && Fgt (cell markers 0 tmp1) (gene_high1 c)
          && Flt (cell markers 1 tmp1) (gene_low2 c)
  then Ok (St (add_cl tmp1 tmp2 (acc s)) (num - 1)%Z g)
  else if Fgt (cell markers 1 tmp1) (gene_high2_ml c)
          && Fgt (cell markers 2 tmp1) (gene_high3 c)
          && Fgt (cell markers 1 tmp2) (gene_high2_ml c)
          && Fgt (cell markers 2 tmp2) (gene_high3 c)
  then Ok (St (add_ml tmp1 tmp2 (acc s)) (num - 1)%Z g)
  else if Fgt (cell markers 1 tmp1) (gene_high2_ml c)
          && Flt (cell markers 2 tmp1) (gene_low3 c)
          && Fgt (cell markers 1 tmp2) (gene_high2_ml c)
          && Flt (cell markers 2 tmp2) (gene_low3 c)
  then Ok (St (add_ml tmp1 tmp2 (acc s)) (num - 1)%Z g)
  else if Fgt (cell markers 0 tmp1) (gene_high1_ml c)
          && Fgt (cell markers 2 tmp1) (gene_high3 c)
          && Fgt (cell markers 1 tmp2) (gene_high1_ml c)
          && Fgt (cell markers 2 tmp2) (gene_high3 c)
  then Ok (St (add_ml tmp1 tmp2 (acc s)) (num - 1)%Z g)
  else if Fgt (cell markers 0 tmp1) (gene_high1_ml c)
          && Flt (cell markers 2 tmp1) (gene_low3 c)
          && Fgt (cell markers 3 tmp1) (gene_high4 c)
          && Fgt (cell markers 1 tmp2) (gene_high1_ml c)
          && Flt (cell markers 2 tmp2) (gene_low3 c)
          && Fgt (cell markers 3 tmp2) (gene_high4 c)
  then Ok (St (add_ml tmp1 tmp2 (acc s)) (num - 1)%Z g)
  else if Fgt (cell markers 0 tmp1) (gene_high1_ml c)
          && Flt (cell markers 2 tmp1) (gene_low3 c)
          && Flt (cell markers 3 tmp1) (gene_low4 c)
          && Fgt (cell markers 1 tmp2) (gene_high1_ml c)
          && Flt (cell markers 2 tmp2) (gene_low3 c)
          && Flt (cell markers 3 tmp2) (gene_low4 c)
  then Ok (St (add_ml tmp1 tmp2 (acc s)) (num - 1)%Z g)
  else Ok (St (acc s) num g).

Definition CD_markers_loop (fuel : nat) (markers : ndarray) (num : Z)
    (low1 high1 low2 high2 : F) (g : rng) : option (result (state Z)) :=
  after (CD_markers_cutoffs markers low1 high1 low2 high2) (fun c =>
    while fuel num_cond (CD_markers_body markers c) (St no_pairs num g)).

Definition generate_random_pair_from_CD_markers (fuel : nat)
    (markers : ndarray) (num : Z) (low1 high1 low2 high2 : F) (g np : rng)
    : option (result pairs) :=
  and_then (CD_markers_loop fuel markers num low1 high1 low2 high2 g)
    (fun s => shuffle (acc s) np).

(** The branches of the loop above read as a table: which list a pattern
    feeds, and the pattern on the two candidate columns. *)
Inductive link : Type := MustLink | CannotLink.

Definition CD_markers_table (markers : ndarray) (c : marker_cutoffs)
    : list (link * (nat -> nat -> bool)) :=
  [ (CannotLink, fun tmp1 tmp2 =>
       Flt (cell markers 0 tmp1) (gene_low1 c)
       && Fgt (cell markers 1 tmp1) (gene_high2 c)
       && Fgt (cell markers 0 tmp2) (gene_high1 c)
       && Flt (cell markers 1 tmp2) (gene_low2 c));
    (CannotLink, fun tmp1 tmp2 =>
       Flt (cell markers 0 tmp2) (gene_low1 c)
       && Fgt (cell markers 1 tmp2) (gene_high2 c)
       && Fgt (cell markers 0 tmp1) (gene_high1 c)
       && Flt (cell markers 1 tmp1) (gene_low2 c));
    (MustLink, fun tmp1 tmp2 =>
       Fgt (cell markers 1 tmp1) (gene_high2_ml c)
       && Fgt (cell markers 2 tmp1) (gene_high3 c)
       && Fgt (cell markers 1 tmp2) (gene_high2_ml c)
       && Fgt (cell markers 2 tmp2) (gene_high3 c));
    (MustLink, fun tmp1 tmp2 =>
       Fgt (cell markers 1 tmp1) (gene_high2_ml c)
       && Flt (cell markers 2 tmp1) (gene_low3 c)
       && Fgt (cell markers 1 tmp2) (gene_high2_ml c)
       && Flt (cell markers 2 tmp2) (gene_low3 c));
    (MustLink, fun tmp1 tmp2 =>
       Fgt (cell markers 0 tmp1) (gene_high1_ml c)
       && Fgt (cell markers 2 tmp1) (gene_high3 c)
       && Fgt (cell markers 1 tmp2) (gene_high1_ml c)
       && Fgt (cell markers 2 tmp2) (gene_high3 c));
    (MustLink, fun tmp1 tmp2 =>
       Fgt (cell markers 0 tmp1) (gene_high1_ml c)
       && Flt (cell markers 2 tmp1) (gene_low3 c)
       && Fgt (cell markers 3 tmp1) (gene_high4 c)
       && Fgt (cell markers 1 tmp2) (gene_high1_ml c)
       && Flt (cell markers 2 tmp2) (gene_low3 c)
       && Fgt (cell markers 3 tmp2) (gene_high4 c));
    (MustLink, fun tmp1 tmp2 =>
       Fgt (cell markers 0 tmp1) (gene_high1_ml c)
       && Flt (cell markers 2 tmp1) (gene_low3 c)
       && Flt (cell markers 3 tmp1) (gene_low4 c)
       && Fgt (cell markers 1 tmp2) (gene_high1_ml c)
       && Flt (cell markers 2 tmp2) (gene_low3 c)
       && Flt (cell markers 3 tmp2) (gene_low4 c)) ].

(** First pattern of a table that holds of the candidate, in order. *)
Fixpoint first_match (table : list (link * (nat -> nat -> bool)))
    (tmp1 tmp2 : nat) : option link :=
  match table with
  | [] => None
  | (l, pattern) :: table' =>
      if pattern tmp1 tmp2 then Some l else first_match table' tmp1 tmp2
  end.

(** What a loop iteration does with a candidate once it is classified. *)
Definition settle (verdict : option link) (tmp1 tmp2 : nat) (s : state Z)
    (g : rng) : state Z :=
  match verdict with
  | Some MustLink => St (add_ml tmp1 tmp2 (acc s)) (ctr s - 1)%Z g
  | Some CannotLink => St (add_cl tmp1 tmp2 (acc s)) (ctr s - 1)%Z g
  | None => St (acc s) (ctr s) g
  end.

(** *** generate_random_pair_from_embedding_clustering *)

Definition clustering_setup (latent_embedding : ndarray) (n_clusters : nat)
    (ML CL : F) : result (list nat * F) :=
  y_pred ← kmeans_labels n_clusters (rows latent_embedding);
  cut ← distance_cutoffs latent_embedding ML CL;
  Ok (y_pred, cut.2).

Definition clustering_body (latent_embedding : ndarray) (y_pred : list nat)
    (cutoff_CL : F) (s : state Z) : result (state Z) :=
  let num := ctr s in
  '(tmp1, g) ← randint0 (shape0 latent_embedding) (py s);
  '(tmp2, g) ← randint0 (shape0 latent_embedding) g;
  if tmp1 =? tmp2 then Ok (St (acc s) num g)
  else if check_ind tmp1 tmp2 (ml_ind1 (acc s)) (ml_ind2 (acc s))
  then Ok (St (acc s) num g)
  else
    match y_pred !! tmp1, y_pred !! tmp2 with
    | Some p1, Some p2 =>
        if p1 =? p2 then Ok (St (add_ml tmp1 tmp2 (acc s)) (num - 1)%Z g)
        else if negb (p1 =? p2)
                && Fgt (pair_norm latent_embedding tmp1 tmp2) cutoff_CL
        then Ok (St (add_cl tmp1 tmp2 (acc s)) (num - 1)%Z g)
        else Ok (St (acc s) num g)
    | _, _ => Raise IndexError
    end.

Definition clustering_loop (fuel : nat) (latent_embedding : ndarray)
    (num : Z) (n_clusters : nat) (ML CL : F) (g : rng)
    : option (result (state Z)) :=
  after (clustering_setup latent_embedding n_clusters ML CL) (fun su =>
    while fuel num_cond (clustering_body latent_embedding su.1 su.2)
      (St no_pairs num g)).

Definition generate_random_pair_from_embedding_clustering (fuel : nat)
    (latent_embedding : ndarray) (num : Z) (n_clusters : nat) (ML CL : F)
    (g np : rng) : option (result pairs) :=
  and_then (clustering_loop fuel latent_embedding num n_clusters ML CL g)
    (fun s => shuffle (acc s) np).

(** *** The six generators behind one interface *)

(** A call of one of the generators with its arguments. *)
Inductive call : Type :=
| RandomPair (y : list Z) (label_cell_indx : list nat) (num : Z)
    (error_rate : F)
| FromProteins (latent_embedding : ndarray) (num : Z) (ML CL : F)
| FromTwoCDs (latent_embedding : ndarray) (num : Z) (LC HC : F)
| FromOneCD (latent_embedding : ndarray) (num : Z) (LC HC : F) (gene : nat)
| FromCDMarkers (markers : ndarray) (num : Z) (low1 high1 low2 high2 : F)
| FromEmbeddingClustering (latent_embedding : ndarray) (num : Z)
    (n_clusters : nat) (ML CL : F).

(** The four arrays a call returns. *)
Definition run (c : call) (fuel : nat) (g np : rng) : option (result pairs) :=
  match c with
  | RandomPair y pool num er =>
      and_then (generate_random_pair fuel y pool num er g np)
        (fun out => Ok out.1)
  | FromProteins e num ML CL =>
      generate_random_pair_from_proteins fuel e num ML CL g np
  | FromTwoCDs e num LC HC =>
      generate_random_pair_from_two_CDs fuel e num LC HC g np
  | FromOneCD e num LC HC gene =>
      generate_random_pair_from_one_CD fuel e num LC HC gene g np
  | FromCDMarkers m num low1 high1 low2 high2 =>
      generate_random_pair_from_CD_markers fuel m num low1 high1 low2 high2 g np
  | FromEmbeddingClustering e num n ML CL =>
      generate_random_pair_from_embedding_clustering fuel e num n ML CL g np
  end.

(** The four lists when the sampling loop of a call ends, before the
    shuffles. *)
Definition sample (c : call) (fuel : nat) (g : rng) : option (result pairs) :=
  match c with
  | RandomPair y pool num er =>
      and_then (random_pair_loop fuel y pool num er g) (fun s => Ok (acc s))
  | FromProteins e num ML CL =>
      and_then (proteins_loop fuel e num ML CL g) (fun s => Ok (acc s))
  | FromTwoCDs e num LC HC =>
      and_then (two_CDs_loop two_CDs_cap fuel e num LC HC g)
        (fun s => Ok (acc s))
  | FromOneCD e num LC HC gene =>
      and_then (one_CD_loop one_CD_cap fuel e num LC HC gene g)
        (fun s => Ok (acc s))
  | FromCDMarkers m num low1 high1 low2 high2 =>
      and_then (CD_markers_loop fuel m num low1 high1 low2 high2 g)
        (fun s => Ok (acc s))
  | FromEmbeddingClustering e num n ML CL =>
      and_then (clustering_loop fuel e num n ML CL g) (fun s => Ok (acc s))
  end.

(** The sample indices of the data a call is given. *)
Definition valid_index (c : call) (i : nat) : Prop :=
  match c with
  | RandomPair _ label_cell_indx _ _ => i ∈ label_cell_indx
  | FromProteins e _ _ _ | FromEmbeddingClustering e _ _ _ _ => i < shape0 e
  | FromTwoCDs e _ _ _ | FromOneCD e _ _ _ _ | FromCDMarkers e _ _ _ _ _ =>
      i < shape1 e
  end.

(** The number of constraints a call asks for. *)
Definition requested (c : call) : Z :=
  match c with
  | RandomPair _ _ num _ | FromProteins _ num _ _ | FromTwoCDs _ num _ _
  | FromOneCD _ num _ _ _ | FromCDMarkers _ num _ _ _ _
  | FromEmbeddingClustering _ num _ _ _ => num
  end.

(** The distance of a pair [ij] of rows is below [cutoff]. *)
Definition closer_than (e : ndarray) (cutoff : F) (ij : nat * nat) : Prop :=
  Flt (pair_norm e ij.1 ij.2) cutoff = true.

(** The distance of a pair [ij] of rows is above [cutoff]. *)
Definition farther_than (e : ndarray) (cutoff : F) (ij : nat * nat) : Prop :=
  Fgt (pair_norm e ij.1 ij.2) cutoff = true.

(** The cap a call puts on its attempts, if any. *)
Definition attempt_cap (c : call) : option Z :=
  match c with
  | FromTwoCDs _ _ _ _ => Some two_CDs_cap
  | FromOneCD _ _ _ _ _ => Some one_CD_cap
  | _ => None
  end.

End Generators.

(** ** A rational implementation of the numeric library

    Exact rationals stand for floats; it is the implementation the worked
    examples run on. *)

Definition Qltb (a b : Q) : bool := negb (Qle_bool b a).

(** Square root of a non-negative rational, exact on squares of rationals
    and truncated to 20 binary digits otherwise. *)
Definition Qsqrt (q : Q) : Q :=
  let n := Qnum q in
  let d := Z.pos (Qden q) in
  let s := (2 ^ 20)%Z in
  Qred (Qmake (Z.sqrt (n * d * s * s)) (Z.to_pos (d * s))).

Definition Qnorm (v : list Q) : Q :=
  Qsqrt (foldr Qplus 0%Q (map (fun x => (x * x)%Q) v)).

Fixpoint Qinsert (x : Q) (l : list Q) : list Q :=
  match l with
  | [] => [x]
  | y :: l' => if Qle_bool x y then x :: l else y :: Qinsert x l'
  end.

Definition Qsort (l : list Q) : list Q := foldr Qinsert [] l.

(** numpy's default quantile: linear interpolation between order statistics. *)
Definition Qquantile (a : list Q) (q : Q) : result Q :=
  if Qltb q 0 || Qltb 1 q then Raise ValueError
  else
    match Qsort a with
    | [] => Raise ValueError
    | (x0 :: _) as sorted =>
        let h := (inject_Z (Z.of_nat (length a) - 1) * q)%Q in
        let lo := Qfloor h in
        let vlo := nth (Z.to_nat lo) sorted x0 in
        let vhi := nth (Z.to_nat (lo + 1)) sorted vlo in
        Ok (Qred (vlo + (h - inject_Z lo) * (vhi - vlo)))%Q
    end.

Definition Qpercentile (a : list Q) (p : Q) : result Q :=
  Qquantile a (p / 100)%Q.

Definition Qdistances (X Y : list (list Q)) : result (list (list Q)) :=
  Ok (map (fun x => map (fun y => Qnorm (zip_with Qminus x y)) Y) X).

(** Position of the least element of a list of rationals. *)
Fixpoint Qargmin (l : list Q) : nat :=
  match l with
  | [] => 0
  | x :: l' =>
      match l' with
      | [] => 0
      | _ :: _ =>
          let j := Qargmin l' in
          if Qle_bool x (nth j l' x) then 0 else S j
      end
  end.

(** A deterministic stand-in for k-means: the first [k] rows are the
    centres and every row joins its nearest centre. *)
Definition Qkmeans (k : nat) (X : list (list Q)) : result (list nat) :=
  if (k =? 0) || (length X <? k) then Raise ValueError
  else
    let centres := take k X in
    Ok (map (fun x => Qargmin (map (fun c => Qnorm (zip_with Qminus x c)) centres)) X).

#[local] Instance QLib : NumLib := {|
  F := Q;
  Fzero := 0%Q;
  Flt := Qltb;
  Fle := Qle_bool;
  Fsub := Qminus;
  Fmul := Qmult;
  Fint := inject_Z;
  norm := Qnorm;
  np_quantile := Qquantile;
  np_percentile := Qpercentile;
  euclidean_distances := Qdistances;
  kmeans_labels := Qkmeans
|}.

(** An array given by its rows. *)
Definition array_of (r c : nat) (data : list (list Q)) : @ndarray QLib :=
  Ndarray r c (fun i j => nth j (nth i data []) 0%Q).

(** A generator replaying a finite list of draws, then zeros. *)
Definition replay (l : list nat) : rng := Rng (fun i => nth i l 0) 0.

#[global] Instance link_eq_dec : EqDecision link.
Proof. solve_decision. Defined.

(** ** Worked inputs *)

(** Four cells with labels, all of them in the pool. *)
Definition labelled_cells : call :=
  @RandomPair QLib [0; 0; 1; 1]%Z [0; 1; 2; 3] 4 0%Q.

(** Four cells on a line: two close to 0, two close to 11. *)
Definition line_cells : ndarray := array_of 4 1 [[0]; [1]; [10]; [12]]%Q.

(** One gene measured in four cells. *)
Definition one_gene : ndarray := array_of 1 4 [[0; 0; 10; 10]]%Q.

(** Two genes measured in four cells, high where the other is low. *)
Definition two_genes : ndarray :=
  array_of 2 4 [[0; 0; 10; 10]; [10; 10; 0; 0]]%Q.

(** Four marker genes measured in twenty-one cells. *)
Definition four_markers : ndarray :=
  array_of 4 21
    [ [0; 7; 5; 5; 10; 5; 10; 5; 10; 5; 5; 5; 5; 5; 5; 5; 5; 5; 5; 5; 5];
      [7; 0; 10; 10; 5; 7; 5; 10; 5; 10; 5; 5; 5; 5; 5; 5; 5; 5; 5; 5; 5];
      [5; 5; 10; 10; 10; 10; 0; 0; 0; 0; 5; 5; 5; 5; 5; 5; 5; 5; 5; 5; 5];
      [5; 5; 5; 5; 5; 5; 10; 10; 0; 0; 5; 5; 5; 5; 5; 5; 5; 5; 5; 5; 5] ]%Q.

(** Its cutoffs at the default quantiles 0.4, 0.6, 0.2 and 0.8. *)
Definition four_markers_cutoffs : marker_cutoffs :=
  match CD_markers_cutoffs four_markers (4 # 10) (6 # 10) (2 # 10) (8 # 10) with
  | Ok c => c
  | Raise _ => MarkerCutoffs 0 0 0 0 0 0 0 0 0 0 0 0
  end%Q.

(** ** Specification vocabulary for the accuracy *)

(** A [D] by [D] table. *)
Definition square (D : nat) (w : counts) : Prop :=
  length w = D /\ Forall (fun r => length r = D) w.

(** The size of the table [cluster_acc] builds. *)
Definition table_size (y_true y_pred : list nat) : nat :=
  Nat.max (max_list y_pred) (max_list y_true) + 1.

(** Every assignment of the first problem is matched or beaten by one of the
    second. *)
Definition dominated (c1 : nat -> nat -> Z) (D1 : nat)
    (c2 : nat -> nat -> Z) (D2 : nat) : Prop :=
  forall sigma, sigma ≡ₚ seq 0 D1 ->
    exists sigma', sigma' ≡ₚ seq 0 D2 /\
      (score c1 D1 sigma <= score c2 D2 sigma')%Z.

(** ** Specification vocabulary for the sampling loops *)

(** One loop iteration either leaves the lists alone or appends one pair of
    distinct, valid indices: to the must-link lists only if the pair is not
    already there, or to the cannot-link lists. *)
Definition grows (valid : nat -> Prop) (p p' : pairs) : Prop :=
  p' = p \/
  exists a b, a <> b /\ valid a /\ valid b /\
    ((check_ind a b (ml_ind1 p) (ml_ind2 p) = false /\ p' = add_ml a b p) \/
     p' = add_cl a b p).

(** The must-link and cannot-link pairs, index by index. *)
Definition ml_pairs (p : pairs) : list (nat * nat) := zip (ml_ind1 p) (ml_ind2 p).
Definition cl_pairs (p : pairs) : list (nat * nat) := zip (cl_ind1 p) (cl_ind2 p).

Definition distinct (ab : nat * nat) : Prop := ab.1 <> ab.2.

Definition both (valid : nat -> Prop) (ab : nat * nat) : Prop :=
  valid ab.1 /\ valid ab.2.

(** What every generator maintains about its four lists. *)
Record sound (valid : nat -> Prop) (p : pairs) : Prop := Sound {
  ml_aligned : length (ml_ind1 p) = length (ml_ind2 p);
  cl_aligned : length (cl_ind1 p) = length (cl_ind2 p);
  ml_NoDup : NoDup (ml_pairs p);
  ml_distinct : Forall distinct (ml_pairs p);
  cl_distinct : Forall distinct (cl_pairs p);
  ml_valid : Forall (both valid) (ml_pairs p);
  cl_valid : Forall (both valid) (cl_pairs p)
}.

(** Number of constraints held by the lists. *)
Definition counted (p : pairs) : Z :=
  (Z.of_nat (length (ml_ind1 p)) + Z.of_nat (length (cl_ind1 p)))%Z.

(** What is left of a budget of [num / 2] after the pairs of [l], and not
    overdrawn by a whole pair. *)
Definition half_budget (num : Z) (l : list nat) (q : Q) : Prop :=
  (2 * q == inject_Z num - 2 * inject_Z (Z.of_nat (length l)))%Q /\ (-1 < q)%Q.

(** ** Specification vocabulary for the rules of the generators *)

(** One loop iteration either leaves the lists alone or appends one pair: to
    the must-link lists only if [PM] holds of it, to the cannot-link lists
    only if [PC] does. *)
Definition labels (PM PC : nat * nat -> Prop) (p p' : pairs) : Prop :=
  p' = p \/
  exists a b, (PM (a, b) /\ p' = add_ml a b p) \/ (PC (a, b) /\ p' = add_cl a b p).

(** The two cells of a pair carry one label of [y], or two different ones. *)
Definition same_label {A : Type} (y : list A) (ab : nat * nat) : Prop :=
  exists l, y !! ab.1 = Some l /\ y !! ab.2 = Some l.

Definition other_label {A : Type} (y : list A) (ab : nat * nat) : Prop :=
  exists l1 l2, y !! ab.1 = Some l1 /\ y !! ab.2 = Some l2 /\ l1 <> l2.

(** Both cells of a pair are positions of [y]. *)
Definition labelled {A : Type} (y : list A) (ab : nat * nat) : Prop :=
  ab.1 < length y /\ ab.2 < length y.

(** Number of returned pairs that contradict the labels [y]: must-link pairs
    of different labels and cannot-link pairs of one label. *)
Definition mislabelled (y : list Z) (p : pairs) : Z :=
  (Z.of_nat (length (filter (fun ab => y !! ab.1 <> y !! ab.2) (ml_pairs p)))
   + Z.of_nat (length (filter (fun ab => y !! ab.1 = y !! ab.2) (cl_pairs p))))%Z.

Section Rules.
Context `{NumLib}.

(** Quadrants of [generate_random_pair_from_two_CDs]: high in row 0 and low
    in row 1, or the reverse; [th] is [(lc1, lc2, mc1, mc2)]. *)
Definition high_low (e : ndarray) (th : F * F * F * F) (i : nat) : Prop :=
  let '(lc1, lc2, mc1, mc2) := th in
  Fgt (cell e 0 i) mc1 = true /\ Fle (cell e 1 i) lc2 = true.

Definition low_high (e : ndarray) (th : F * F * F * F) (i : nat) : Prop :=
  let '(lc1, lc2, mc1, mc2) := th in
  Fle (cell e 0 i) lc1 = true /\ Fgt (cell e 1 i) mc2 = true.

Definition same_quadrant (e : ndarray) (th : F * F * F * F) (ab : nat * nat) : Prop :=
  (high_low e th ab.1 /\ high_low e th ab.2) \/
  (low_high e th ab.1 /\ low_high e th ab.2).

Definition opposite_quadrants (e : ndarray) (th : F * F * F * F) (ab : nat * nat) : Prop :=
  (high_low e th ab.1 /\ low_high e th ab.2) \/
  (low_high e th ab.1 /\ high_low e th ab.2).

(** Levels of [generate_random_pair_from_one_CD]; [th] is [(lc1, mc1)]. *)
Definition above (e : ndarray) (gene : nat) (th : F * F) (i : nat) : Prop :=
  Fgt (cell e gene i) th.2 = true.

Definition below (e : ndarray) (gene : nat) (th : F * F) (i : nat) : Prop :=
  Fle (cell e gene i) th.1 = true.

Definition both_above (e : ndarray) (gene : nat) (th : F * F) (ab : nat * nat) : Prop :=
  above e gene th ab.1 /\ above e gene th ab.2.

Definition above_and_below (e : ndarray) (gene : nat) (th : F * F) (ab : nat * nat) : Prop :=
  (above e gene th ab.1 /\ below e gene th ab.2) \/
  (below e gene th ab.1 /\ above e gene th ab.2).

(** The verdict of the marker table on a pair. *)
Definition table_says (markers : ndarray) (c : marker_cutoffs) (l : link)
    (ab : nat * nat) : Prop :=
  first_match (CD_markers_table markers c) ab.1 ab.2 = Some l.

End Rules.

(** Number of samples whose predicted label is their true label. *)
Definition agreements (y_pred y_true : list nat) : Z :=
  Z.of_nat (length (filter (fun pt => pt.1 = pt.2) (zip y_pred y_true))).

(** ** Tactics *)

(** Case analysis of a loop body once its two draws are named. *)
Ltac grows_cases tmp1 tmp2 :=
  repeat case_match; simplify_eq; cbn [acc];
  first
    [ by left
    | right; exists tmp1, tmp2;
      match goal with
      | Hne : (tmp1 =? tmp2) = false |- _ => apply Nat.eqb_neq in Hne
      end;
      split_and!; try done; eauto ].

(** Case analysis of a loop body for its effect on the counters. *)
Ltac count_cases :=
  repeat case_match; simplify_eq; cbn [acc ctr fst snd];
  unfold counted, add_ml, add_cl; cbn [ml_ind1 cl_ind1];
  rewrite ?length_app; cbn [length]; lia.

(** Case analysis of a loop body for the rule each appended pair obeys. *)
Ltac split_conditions :=
  repeat match goal with
         | Hc : _ && _ = true |- _ => apply andb_true_iff in Hc as [? ?]
         | Hc : negb _ = true |- _ => apply negb_true_iff in Hc
         end.

Ltac labels_cases tmp1 tmp2 :=
  repeat case_match; simplify_eq; cbn [acc];
  first [ by left | right; exists tmp1, tmp2; split_conditions ].

(** * Properties *)

(** ** Loops and random draws *)

Lemma while_inv {S : Type} (I : S -> Prop) cond (body : S -> result S) :
  (forall s s', I s -> cond s = true -> body s = Ok s' -> I s') ->
  forall fuel s s', I s -> while fuel cond body s = Some (Ok s') ->
    I s' /\ cond s' = false.
Proof.
  intros Hstep fuel. induction fuel as [|fuel IH]; intros s s' Hs Hrun; simpl in Hrun.
  - destruct (cond s) eqn:Hc; [done|]. by simplify_eq.
  - destruct (cond s) eqn:Hc; [|by simplify_eq].
    destruct (body s) as [s1|e] eqn:Hb; [|done].
    eapply IH; [|exact Hrun]. eauto.
Qed.

(** A loop whose body lowers a measure that is positive while the condition
    holds ends within that many iterations. *)
Lemma while_terminates {S : Type} (m : S -> nat) cond (body : S -> result S) :
  (forall s, cond s = true -> 0 < m s) ->
  (forall s s', cond s = true -> body s = Ok s' -> m s' < m s) ->
  forall fuel s, m s <= fuel -> while fuel cond body s <> None.
Proof.
  intros Hpos Hdec fuel. induction fuel as [|fuel IH]; intros s Hm; simpl.
  - destruct (cond s) eqn:Hc; [|done]. apply Hpos in Hc. lia.
  - destruct (cond s) eqn:Hc; [|done].
    destruct (body s) as [s1|e] eqn:Hb; [|done].
    apply IH. specialize (Hdec _ _ Hc Hb). lia.
Qed.

(** More fuel never changes the outcome of a loop that has ended. *)
Lemma while_more_fuel {S : Type} cond (body : S -> result S) fuel fuel' s r :
  while fuel cond body s = Some r -> fuel <= fuel' ->
  while fuel' cond body s = Some r.
Proof.
  revert fuel' s. induction fuel as [|fuel IH]; intros fuel' s Hrun Hle; simpl in Hrun.
  - destruct fuel'; simpl; destruct (cond s); done.
  - destruct fuel' as [|fuel']; [lia|]. simpl.
    destruct (cond s); [|done]. destruct (body s); [|done].
    apply IH; [done|lia].
Qed.

Lemma randint0_lt n g r g' : randint0 n g = Ok (r, g') -> r < n.
Proof.
  destruct n as [|n]; [done|]. cbv [randint0 next]. intros [= <- _].
  apply (Nat.mod_upper_bound (draws g (pos g)) (S n)). lia.
Qed.

Lemma choice_in pool g r g' : choice pool g = Ok (r, g') -> r ∈ pool.
Proof.
  destruct pool as [|x pool]; [done|]. cbv [choice next].
  intros [= <- _]. apply list_elem_of_In.
  apply (nth_In (x :: pool) 0).
  apply (Nat.mod_upper_bound (draws g (pos g)) (length (x :: pool))). simpl. lia.
Qed.

Lemma check_ind_spec a b l1 l2 :
  check_ind a b l1 l2 = true <-> (a, b) ∈ zip l1 l2.
Proof.
  unfold check_ind. rewrite existsb_exists. split.
  - intros ([x y] & Hin & Heq). simpl in Heq.
    apply andb_true_iff in Heq as [?%Nat.eqb_eq ?%Nat.eqb_eq]. subst.
    by apply list_elem_of_In.
  - intros Hin. exists (a, b). split; [by apply list_elem_of_In|].
    simpl. by rewrite !Nat.eqb_refl.
Qed.

(** ** The four lists *)

Lemma sound_no_pairs valid : sound valid no_pairs.
Proof. split; simpl; try done; constructor. Qed.

Lemma zip_snoc {A B : Type} (l1 : list A) (l2 : list B) a b :
  length l1 = length l2 -> zip (l1 ++ [a]) (l2 ++ [b]) = zip l1 l2 ++ [(a, b)].
Proof. intros Hlen. by rewrite zip_with_app. Qed.

Lemma grows_sound valid p p' : sound valid p -> grows valid p p' -> sound valid p'.
Proof.
  intros [Hml Hcl Hnd Hmd Hcd Hmv Hcv] [->|(a & b & Hab & Ha & Hb & Hcase)]; [done|].
  unfold ml_pairs, cl_pairs in *.
  destruct Hcase as [[Hfresh ->] | ->]; split; unfold ml_pairs, cl_pairs; simpl;
    rewrite ?length_app, ?zip_snoc by done; simpl; try done; try lia.
  - apply NoDup_app. split_and!; [done| |apply NoDup_singleton].
    intros x Hx ->%list_elem_of_singleton.
    apply check_ind_spec in Hx. congruence.
  - apply Forall_app. split; [done|]. by apply Forall_singleton.
  - apply Forall_app. split; [done|]. by apply Forall_singleton.
  - apply Forall_app. split; [done|]. by apply Forall_singleton.
  - apply Forall_app. split; [done|]. by apply Forall_singleton.
Qed.

(** ** The final shuffles *)

Lemma insert_at_perm {A : Type} i (x : A) l : insert_at i x l ≡ₚ x :: l.
Proof.
  unfold insert_at. rewrite <- Permutation_middle.
  by rewrite take_drop.
Qed.

Lemma np_permutation_perm n g : (np_permutation n g).1 ≡ₚ seq 0 n.
Proof.
  revert g. induction n as [|n IH]; intros g; [done|].
  cbn [np_permutation]. specialize (IH g).
  destruct (np_permutation n g) as [p g1]. cbv [next]. cbn [fst] in *.
  rewrite insert_at_perm, IH, seq_S. simpl.
  apply Permutation_cons_append.
Qed.

Lemma take_indices_length a index xs :
  take_indices a index = Ok xs -> length xs = length index.
Proof.
  revert xs. induction index as [|i index IH]; intros xs Hxs; simpl in Hxs.
  - by simplify_eq.
  - destruct (a !! i); [|done].
    destruct (take_indices a index) as [ys|]; [|done].
    cbn in Hxs. simplify_eq. simpl. f_equal. by apply IH.
Qed.

Lemma take_indices_zip a1 a2 index xs1 xs2 d :
  take_indices a1 index = Ok xs1 -> take_indices a2 index = Ok xs2 ->
  zip xs1 xs2 = map (fun i => nth i (zip a1 a2) d) index.
Proof.
  revert xs1 xs2. induction index as [|i index IH]; intros xs1 xs2 H1 H2;
    simpl in H1, H2.
  - by simplify_eq.
  - destruct (a1 !! i) as [x1|] eqn:E1; [|done].
    destruct (a2 !! i) as [x2|] eqn:E2; [|done].
    destruct (take_indices a1 index) as [ys1|]; [|done].
    destruct (take_indices a2 index) as [ys2|]; [|done].
    cbn in H1, H2. simplify_eq. simpl. f_equal; [|by apply IH].
    symmetry. apply nth_lookup_Some.
    rewrite lookup_zip_with, E1. simpl. by rewrite E2.
Qed.

Lemma take_indices_ok a index :
  Forall (fun i => i < length a) index -> exists xs, take_indices a index = Ok xs.
Proof.
  induction 1 as [|i index Hi _ [xs IH]]; [by exists []|].
  simpl. destruct (lookup_lt_is_Some_2 a i Hi) as [x ->].
  rewrite IH. by eexists.
Qed.

Lemma map_nth_seq_id {A : Type} (l : list A) d :
  map (fun i => nth i l d) (seq 0 (length l)) = l.
Proof.
  induction l as [|x l IH] using rev_ind; [done|].
  rewrite length_app, Nat.add_1_r, seq_S, map_app. simpl. f_equal.
  - rewrite <- IH at 2. apply map_ext_in. intros i Hi%in_seq.
    apply app_nth1. lia.
  - by rewrite nth_middle.
Qed.

(** The shuffled arrays hold the accepted pairs, still aligned. *)
Lemma shuffle_spec p np p' :
  shuffle p np = Ok p' ->
  length (ml_ind1 p) = length (ml_ind2 p) ->
  length (cl_ind1 p) = length (cl_ind2 p) ->
  (length (ml_ind1 p') = length (ml_ind2 p') /\ ml_pairs p' ≡ₚ ml_pairs p) /\
  (length (cl_ind1 p') = length (cl_ind2 p') /\ cl_pairs p' ≡ₚ cl_pairs p).
Proof.
  unfold shuffle. intros Hs Hml Hcl.
  pose proof (np_permutation_perm (length (ml_ind1 p)) np) as Pm.
  destruct (np_permutation (length (ml_ind1 p)) np) as [mi np1].
  pose proof (np_permutation_perm (length (cl_ind1 p)) np1) as Pc.
  destruct (np_permutation (length (cl_ind1 p)) np1) as [ci np2].
  cbn [fst] in Pm, Pc.
  destruct (take_indices (ml_ind1 p) mi) as [m1|] eqn:E1; [|done].
  destruct (take_indices (ml_ind2 p) mi) as [m2|] eqn:E2; [|done].
  destruct (take_indices (cl_ind1 p) ci) as [c1|] eqn:E3; [|done].
  destruct (take_indices (cl_ind2 p) ci) as [c2|] eqn:E4; [|done].
  cbn in Hs. simplify_eq. unfold ml_pairs, cl_pairs. simpl.
  split; split.
  - apply take_indices_length in E1, E2. congruence.
  - rewrite (take_indices_zip _ _ _ _ _ (0, 0) E1 E2), Pm.
    replace (length (ml_ind1 p)) with (length (zip (ml_ind1 p) (ml_ind2 p)))
      by (rewrite length_zip_with; lia).
    by rewrite map_nth_seq_id.
  - apply take_indices_length in E3, E4. congruence.
  - rewrite (take_indices_zip _ _ _ _ _ (0, 0) E3 E4), Pc.
    replace (length (cl_ind1 p)) with (length (zip (cl_ind1 p) (cl_ind2 p)))
      by (rewrite length_zip_with; lia).
    by rewrite map_nth_seq_id.
Qed.

Lemma shuffle_sound valid p np p' :
  sound valid p -> shuffle p np = Ok p' -> sound valid p'.
Proof.
  intros [Hml Hcl Hnd Hmd Hcd Hmv Hcv] Hs.
  destruct (shuffle_spec _ _ _ Hs Hml Hcl) as [[Lm Pm] [Lc Pc]].
  split; try done.
  - by rewrite Pm.
  - by rewrite Pm.
  - by rewrite Pc.
  - by rewrite Pm.
  - by rewrite Pc.
Qed.

(** On aligned lists the shuffle raises nothing. *)
Lemma shuffle_ok p np :
  length (ml_ind1 p) = length (ml_ind2 p) ->
  length (cl_ind1 p) = length (cl_ind2 p) ->
  exists p', shuffle p np = Ok p'.
Proof.
  intros Hml Hcl. unfold shuffle.
  pose proof (np_permutation_perm (length (ml_ind1 p)) np) as Pm.
  destruct (np_permutation (length (ml_ind1 p)) np) as [mi np1].
  pose proof (np_permutation_perm (length (cl_ind1 p)) np1) as Pc.
  destruct (np_permutation (length (cl_ind1 p)) np1) as [ci np2].
  cbn [fst] in Pm, Pc.
  assert (Forall (fun i => i < length (ml_ind1 p)) mi) as Fm.
  { rewrite Pm. apply Forall_forall. intros i Hi%list_elem_of_In%in_seq. lia. }
  assert (Forall (fun i => i < length (cl_ind1 p)) ci) as Fc.
  { rewrite Pc. apply Forall_forall. intros i Hi%list_elem_of_In%in_seq. lia. }
  destruct (take_indices_ok _ _ Fm) as [m1 ->].
  rewrite Hml in Fm. destruct (take_indices_ok _ _ Fm) as [m2 ->].
  destruct (take_indices_ok _ _ Fc) as [c1 ->].
  rewrite Hcl in Fc. destruct (take_indices_ok _ _ Fc) as [c2 ->].
  by eexists.
Qed.

Lemma and_then_Ok {S A : Type} (o : option (result S)) (k : S -> result A) a :
  and_then o k = Some (Ok a) -> exists s, o = Some (Ok s) /\ k s = Ok a.
Proof.
  destruct o as [[s|e]|]; simpl; intros Hk; simplify_eq; eauto.
Qed.

(** ** One iteration of each loop *)

Section Iterations.
Context `{NumLib}.

Lemma random_pair_body_grows y pool num0 er s s' :
  random_pair_body y pool num0 er s = Ok s' ->
  grows (fun i => i ∈ pool) (acc s) (acc s').
Proof.
  destruct s as [p [num en] g]. unfold random_pair_body. cbn [acc ctr py].
  cbv beta delta [mbind result_bind]. intros Hb.
  destruct (choice pool g) as [[tmp1 g1]|] eqn:E1; [|done].
  destruct (choice pool g1) as [[tmp2 g2]|] eqn:E2; [|done].
  apply choice_in in E1, E2. cbv beta iota in Hb.
  grows_cases tmp1 tmp2.
Qed.

Lemma proteins_body_grows e cml ccl s s' :
  proteins_body e cml ccl s = Ok s' ->
  grows (fun i => i < shape0 e) (acc s) (acc s').
Proof.
  destruct s as [p num g]. unfold proteins_body. cbn [acc ctr py].
  cbv beta delta [mbind result_bind]. intros Hb.
  destruct (randint0 (shape0 e) g) as [[tmp1 g1]|] eqn:E1; [|done].
  destruct (randint0 (shape0 e) g1) as [[tmp2 g2]|] eqn:E2; [|done].
  apply randint0_lt in E1, E2. cbv beta iota in Hb.
  grows_cases tmp1 tmp2.
Qed.

Lemma two_CDs_body_grows e th s s' :
  two_CDs_body e th s = Ok s' ->
  grows (fun i => i < shape1 e) (acc s) (acc s').
Proof.
  destruct s as [p [num k] g], th as [[[lc1 lc2] mc1] mc2].
  unfold two_CDs_body. cbn [acc ctr py].
  cbv beta delta [mbind result_bind]. intros Hb.
  destruct (randint0 (shape1 e) g) as [[tmp1 g1]|] eqn:E1; [|done].
  destruct (randint0 (shape1 e) g1) as [[tmp2 g2]|] eqn:E2; [|done].
  apply randint0_lt in E1, E2. cbv beta iota in Hb.
  grows_cases tmp1 tmp2.
Qed.

Lemma one_CD_body_grows e th gene s s' :
  one_CD_body e th gene s = Ok s' ->
  grows (fun i => i < shape1 e) (acc s) (acc s').
Proof.
  destruct s as [p [[num1 num2] k] g], th as [lc1 mc1].
  unfold one_CD_body. cbn [acc ctr py].
  cbv beta delta [mbind result_bind]. intros Hb.
  destruct (randint0 (shape1 e) g) as [[tmp1 g1]|] eqn:E1; [|done].
  destruct (randint0 (shape1 e) g1) as [[tmp2 g2]|] eqn:E2; [|done].
  apply randint0_lt in E1, E2. cbv beta iota in Hb.
  grows_cases tmp1 tmp2.
Qed.

Lemma CD_markers_body_grows m c s s' :
  CD_markers_body m c s = Ok s' ->
  grows (fun i => i < shape1 m) (acc s) (acc s').
Proof.
  destruct s as [p num g]. unfold CD_markers_body. cbn [acc ctr py].
  cbv beta delta [mbind result_bind]. intros Hb.
  destruct (randint0 (shape1 m) g) as [[tmp1 g1]|] eqn:E1; [|done].
  destruct (randint0 (shape1 m) g1) as [[tmp2 g2]|] eqn:E2; [|done].
  apply randint0_lt in E1, E2. cbv beta iota in Hb.
  grows_cases tmp1 tmp2.
Qed.

Lemma clustering_body_grows e y_pred ccl s s' :
  clustering_body e y_pred ccl s = Ok s' ->
  grows (fun i => i < shape0 e) (acc s) (acc s').
Proof.
  destruct s as [p num g]. unfold clustering_body. cbn [acc ctr py].
  cbv beta delta [mbind result_bind]. intros Hb.
  destruct (randint0 (shape0 e) g) as [[tmp1 g1]|] eqn:E1; [|done].
  destruct (randint0 (shape0 e) g1) as [[tmp2 g2]|] eqn:E2; [|done].
  apply randint0_lt in E1, E2. cbv beta iota in Hb.
  grows_cases tmp1 tmp2.
Qed.

(** ** The lists at the end of each loop *)

Lemma while_sound {C : Type} valid cond (body : state C -> result (state C)) :
  (forall s s', body s = Ok s' -> grows valid (acc s) (acc s')) ->
  forall fuel s s', sound valid (acc s) ->
    while fuel cond body s = Some (Ok s') -> sound valid (acc s').
Proof.
  intros Hg fuel s s' Hs Hrun.
  eapply (while_inv (fun s => sound valid (acc s))); [|exact Hs|exact Hrun].
  intros s1 s2 H1 _ Hb. eapply grows_sound; eauto.
Qed.

Lemma random_pair_loop_sound fuel y pool num er g s :
  random_pair_loop fuel y pool num er g = Some (Ok s) ->
  sound (fun i => i ∈ pool) (acc s).
Proof.
  apply while_sound; [apply random_pair_body_grows | apply sound_no_pairs].
Qed.

Lemma proteins_loop_sound fuel e num ML CL g s :
  proteins_loop fuel e num ML CL g = Some (Ok s) ->
  sound (fun i => i < shape0 e) (acc s).
Proof.
  unfold proteins_loop. destruct (distance_cutoffs e ML CL) as [cut|]; [|done].
  apply while_sound; [apply proteins_body_grows | apply sound_no_pairs].
Qed.

Lemma two_CDs_loop_sound cap fuel e num LC HC g s :
  two_CDs_loop cap fuel e num LC HC g = Some (Ok s) ->
  sound (fun i => i < shape1 e) (acc s).
Proof.
  unfold two_CDs_loop. destruct (two_CDs_thresholds e LC HC) as [th|]; [|done].
  apply while_sound; [apply two_CDs_body_grows | apply sound_no_pairs].
Qed.

Lemma one_CD_loop_sound cap fuel e num LC HC gene g s :
  one_CD_loop cap fuel e num LC HC gene g = Some (Ok s) ->
  sound (fun i => i < shape1 e) (acc s).
Proof.
  unfold one_CD_loop. destruct (one_CD_thresholds e LC HC gene) as [th|]; [|done].
  apply while_sound; [apply one_CD_body_grows | apply sound_no_pairs].
Qed.

Lemma CD_markers_loop_sound fuel m num l1 h1 l2 h2 g s :
  CD_markers_loop fuel m num l1 h1 l2 h2 g = Some (Ok s) ->
  sound (fun i => i < shape1 m) (acc s).
Proof.
  unfold CD_markers_loop. destruct (CD_markers_cutoffs m l1 h1 l2 h2) as [c|]; [|done].
  apply while_sound; [apply CD_markers_body_grows | apply sound_no_pairs].
Qed.

Lemma clustering_loop_sound fuel e num n ML CL g s :
  clustering_loop fuel e num n ML CL g = Some (Ok s) ->
  sound (fun i => i < shape0 e) (acc s).
Proof.
  unfold clustering_loop. destruct (clustering_setup e n ML CL) as [su|]; [|done].
  apply while_sound; [apply clustering_body_grows | apply sound_no_pairs].
Qed.

End Iterations.

(** ** All six generators at once *)

Section Calls.
Context `{NumLib}.

Lemma run_sample c fuel g np out :
  run c fuel g np = Some (Ok out) ->
  exists p, sample c fuel g = Some (Ok p) /\ shuffle p np = Ok out.
Proof.
  destruct c; cbn [run sample].
  - intros ([p e] & (s & Hl & Hk)%and_then_Ok & Ho)%and_then_Ok.
    destruct (shuffle (acc s) np) as [p'|] eqn:Hs; [|done].
    cbn in Hk, Ho. simplify_eq. exists (acc s). by rewrite Hl.
  - intros (s & Hl & Hk)%and_then_Ok. exists (acc s).
    unfold generate_random_pair_from_proteins in *. by rewrite Hl.
  - intros (s & Hl & Hk)%and_then_Ok. exists (acc s). by rewrite Hl.
  - intros (s & Hl & Hk)%and_then_Ok. exists (acc s). by rewrite Hl.
  - intros (s & Hl & Hk)%and_then_Ok. exists (acc s). by rewrite Hl.
  - intros (s & Hl & Hk)%and_then_Ok. exists (acc s). by rewrite Hl.
Qed.

Lemma sample_sound c fuel g p :
  sample c fuel g = Some (Ok p) -> sound (valid_index c) p.
Proof.
  destruct c; cbn [sample valid_index];
    intros (s & Hl & Hk)%and_then_Ok; simplify_eq.
  - by eapply random_pair_loop_sound.
  - by eapply proteins_loop_sound.
  - by eapply two_CDs_loop_sound.
  - by eapply one_CD_loop_sound.
  - by eapply CD_markers_loop_sound.
  - by eapply clustering_loop_sound.
Qed.

Lemma run_sound c fuel g np out :
  run c fuel g np = Some (Ok out) -> sound (valid_index c) out.
Proof.
  intros (p & Hp & Hs)%run_sample.
  eapply shuffle_sound; [|exact Hs]. by eapply sample_sound.
Qed.

(** X5. Whatever lists a loop ends with, the generator returns them
    shuffled: the lines after the loop raise nothing, also when the lists
    are shorter than requested. *)
Lemma run_returns_after_sample c fuel g np p :
  sample c fuel g = Some (Ok p) -> exists out, run c fuel g np = Some (Ok out).
Proof.
  intros Hp. destruct (sample_sound _ _ _ _ Hp) as [Hml Hcl _ _ _ _ _].
  destruct (shuffle_ok p np Hml Hcl) as [out Hout]. exists out.
  destruct c; cbn [run sample] in *;
    apply and_then_Ok in Hp as (s & Hl & [= <-]).
  - unfold generate_random_pair. rewrite Hl. simpl. by rewrite Hout.
  - unfold generate_random_pair_from_proteins. rewrite Hl. simpl. by rewrite Hout.
  - unfold generate_random_pair_from_two_CDs. rewrite Hl. simpl. by rewrite Hout.
  - unfold generate_random_pair_from_one_CD. rewrite Hl. simpl. by rewrite Hout.
  - unfold generate_random_pair_from_CD_markers. rewrite Hl. simpl. by rewrite Hout.
  - unfold generate_random_pair_from_embedding_clustering. rewrite Hl. simpl.
    by rewrite Hout.
Qed.

End Calls.

Lemma Forall_both_zip valid (l1 l2 : list nat) :
  length l1 = length l2 -> Forall (both valid) (zip l1 l2) ->
  Forall valid l1 /\ Forall valid l2.
Proof.
  revert l2. induction l1 as [|a l1 IH]; intros [|b l2] Hlen Hz;
    simplify_eq/=; [done|].
  apply Forall_cons in Hz as [[Ha Hb] Hz].
  destruct (IH l2) as [H1 H2]; [lia|done|]. by split; constructor.
Qed.

(** ** The returned lists *)

(** C3. No ordered index pair occurs twice in the must-link arrays a
    generator returns: [check_ind] finds exactly the pairs already in the two
    lists it is given, every loop passes it the must-link lists, and a pair
    it finds is never appended to them. *)
Theorem must_link_pairs_never_repeat `{NumLib} :
  (forall a b l1 l2, check_ind a b l1 l2 = true <-> (a, b) ∈ zip l1 l2) /\
  (forall c fuel g np out,
     run c fuel g np = Some (Ok out) -> NoDup (ml_pairs out)).
Proof.
  split; [apply check_ind_spec|].
  intros c fuel g np out Hrun. by destruct (run_sound _ _ _ _ _ Hrun).
Qed.

(** C4. Every pair of the returned must-link arrays and every pair of the
    returned cannot-link arrays joins two different indices. *)
Theorem no_self_pairs `{NumLib} c fuel g np out :
  run c fuel g np = Some (Ok out) ->
  Forall distinct (ml_pairs out) /\ Forall distinct (cl_pairs out).
Proof.
  intros Hrun. by destruct (run_sound _ _ _ _ _ Hrun).
Qed.

(** C7. The returned must-link arrays have one length and hold, pair by
    pair, a rearrangement of the must-link pairs accepted by the loop: both
    arrays are read through one index array that is a permutation of their
    positions.  The same holds for the cannot-link arrays, with an index
    array of their own. *)
Theorem shuffles_keep_the_pairs `{NumLib} c fuel g np out :
  run c fuel g np = Some (Ok out) ->
  exists p ml_index cl_index,
    sample c fuel g = Some (Ok p) /\
    (ml_index ≡ₚ seq 0 (length (ml_ind1 p)) /\
     take_indices (ml_ind1 p) ml_index = Ok (ml_ind1 out) /\
     take_indices (ml_ind2 p) ml_index = Ok (ml_ind2 out) /\
     length (ml_ind1 out) = length (ml_ind2 out) /\
     ml_pairs out ≡ₚ ml_pairs p) /\
    (cl_index ≡ₚ seq 0 (length (cl_ind1 p)) /\
     take_indices (cl_ind1 p) cl_index = Ok (cl_ind1 out) /\
     take_indices (cl_ind2 p) cl_index = Ok (cl_ind2 out) /\
     length (cl_ind1 out) = length (cl_ind2 out) /\
     cl_pairs out ≡ₚ cl_pairs p).
Proof.
  intros (p & Hp & Hs)%run_sample.
  destruct (sample_sound _ _ _ _ Hp) as [Hml Hcl _ _ _ _ _].
  destruct (shuffle_spec _ _ _ Hs Hml Hcl) as [[Lm Pm] [Lc Pc]].
  unfold shuffle in Hs.
  pose proof (np_permutation_perm (length (ml_ind1 p)) np) as Im.
  destruct (np_permutation (length (ml_ind1 p)) np) as [mi np1].
  pose proof (np_permutation_perm (length (cl_ind1 p)) np1) as Ic.
  destruct (np_permutation (length (cl_ind1 p)) np1) as [ci np2].
  destruct (take_indices (ml_ind1 p) mi) as [m1|] eqn:E1; [|done].
  destruct (take_indices (ml_ind2 p) mi) as [m2|] eqn:E2; [|done].
  destruct (take_indices (cl_ind1 p) ci) as [c1|] eqn:E3; [|done].
  destruct (take_indices (cl_ind2 p) ci) as [c2|] eqn:E4; [|done].
  cbn in Hs. simplify_eq. exists p, mi, ci. simpl in *. by split_and!.
Qed.

(** C10. Every index of the four returned arrays is a sample index of the
    data: a member of the pool for [generate_random_pair], below the number
    of rows for the row-oriented generators, below the number of columns for
    the column-oriented ones. *)
Theorem returned_indices_are_valid `{NumLib} c fuel g np out :
  run c fuel g np = Some (Ok out) ->
  Forall (valid_index c) (ml_ind1 out) /\ Forall (valid_index c) (ml_ind2 out) /\
  Forall (valid_index c) (cl_ind1 out) /\ Forall (valid_index c) (cl_ind2 out).
Proof.
  intros Hrun. destruct (run_sound _ _ _ _ _ Hrun) as [Hml Hcl _ _ _ Hmv Hcv].
  destruct (Forall_both_zip _ _ _ Hml Hmv), (Forall_both_zip _ _ _ Hcl Hcv).
  by split_and!.
Qed.

(** ** Termination *)

(** A loop that stays inside a set of states where its condition holds and
    its body returns never ends, whatever the fuel. *)
Lemma while_diverges {S : Type} (I : S -> Prop) cond (body : S -> result S) :
  (forall s, I s -> cond s = true /\ exists s', body s = Ok s' /\ I s') ->
  forall fuel s, I s -> while fuel cond body s = None.
Proof.
  intros Hstep fuel. induction fuel as [|fuel IH]; intros s Hs; simpl;
    destruct (Hstep s Hs) as (-> & s' & Hb & Hs'); [done|].
  rewrite Hb. by apply IH.
Qed.

Section Termination.
Context `{NumLib}.

(** Each iteration of the capped loops counts one attempt. *)
Lemma two_CDs_body_attempt e th s s' :
  two_CDs_body e th s = Ok s' -> (ctr s').2 = ((ctr s).2 + 1)%Z.
Proof.
  destruct s as [p [num k] g], th as [[[lc1 lc2] mc1] mc2].
  unfold two_CDs_body. cbn [acc ctr py].
  cbv beta delta [mbind result_bind]. intros Hb.
  repeat case_match; by simplify_eq.
Qed.

Lemma one_CD_body_attempt e th gene s s' :
  one_CD_body e th gene s = Ok s' -> (ctr s').2 = ((ctr s).2 + 1)%Z.
Proof.
  destruct s as [p [[num1 num2] k] g], th as [lc1 mc1].
  unfold one_CD_body. cbn [acc ctr py].
  cbv beta delta [mbind result_bind]. intros Hb.
  repeat case_match; by simplify_eq.
Qed.

(** The loop of [generate_random_pair_from_two_CDs] ends within [cap]
    iterations, on every input and every stream of draws. *)
Lemma two_CDs_loop_ends cap fuel e num LC HC g :
  Z.to_nat cap <= fuel -> two_CDs_loop cap fuel e num LC HC g <> None.
Proof.
  intros Hfuel. unfold two_CDs_loop.
  destruct (two_CDs_thresholds e LC HC) as [th|]; [|done]. simpl.
  apply (while_terminates (fun s => Z.to_nat (cap - (ctr s).2))).
  - intros s [_ Hk%Z.ltb_lt]%andb_true_iff. lia.
  - intros s s' [_ Hk%Z.ltb_lt]%andb_true_iff Hb.
    apply two_CDs_body_attempt in Hb. lia.
  - simpl. lia.
Qed.

Lemma one_CD_loop_ends cap fuel e num LC HC gene g :
  Z.to_nat cap <= fuel -> one_CD_loop cap fuel e num LC HC gene g <> None.
Proof.
  intros Hfuel. unfold one_CD_loop.
  destruct (one_CD_thresholds e LC HC gene) as [th|]; [|done]. simpl.
  apply (while_terminates (fun s => Z.to_nat (cap - (ctr s).2))).
  - intros [p [[n1 n2] k] g'] [_ Hk%Z.ltb_lt]%andb_true_iff. simpl. lia.
  - intros [p [[n1 n2] k] g'] s' [_ Hk%Z.ltb_lt]%andb_true_iff Hb.
    apply one_CD_body_attempt in Hb. simpl in *. lia.
  - simpl. lia.
Qed.

Lemma and_then_ends {S A : Type} (o : option (result S)) (k : S -> result A) :
  o <> None -> and_then o k <> None.
Proof. by destruct o. Qed.

(** X1. The two capped generators return or raise on every input and every
    stream of draws, once given fuel for their cap. *)
Lemma capped_generators_end e num LC HC gene g np :
  (exists r, generate_random_pair_from_two_CDs (Z.to_nat two_CDs_cap)
               e num LC HC g np = Some r) /\
  (exists r, generate_random_pair_from_one_CD (Z.to_nat one_CD_cap)
               e num LC HC gene g np = Some r).
Proof.
  split.
  - pose proof (two_CDs_loop_ends two_CDs_cap (Z.to_nat two_CDs_cap)
                  e num LC HC g (Nat.le_refl _)) as Hl.
    apply (and_then_ends _ (fun s => shuffle (acc s) np)) in Hl.
    unfold generate_random_pair_from_two_CDs.
    destruct (and_then _ _) as [r|]; [by exists r|done].
  - pose proof (one_CD_loop_ends one_CD_cap (Z.to_nat one_CD_cap)
                  e num LC HC gene g (Nat.le_refl _)) as Hl.
    apply (and_then_ends _ (fun s => shuffle (acc s) np)) in Hl.
    unfold generate_random_pair_from_one_CD.
    destruct (and_then _ _) as [r|]; [by exists r|done].
Qed.

(** With a pool of one index both draws coincide, the candidate is skipped
    and [num] never decreases. *)
Lemma random_pair_loop_single_pool fuel y i num er g :
  (0 < num)%Z -> random_pair_loop fuel y [i] num er g = None.
Proof.
  intros Hnum. unfold random_pair_loop.
  apply (while_diverges
           (fun s => acc s = no_pairs /\ ctr s = (num, 0%Z))); [|done].
  intros [p [n en] g'] [Hp Hc]. simpl in *. simplify_eq. split.
  - unfold random_pair_cond. simpl. by apply Z.ltb_lt.
  - eexists. unfold random_pair_body. cbn. rewrite Nat.eqb_refl. done.
Qed.

Lemma randint0_one g : randint0 1 g = Ok (0, Rng (draws g) (S (pos g))).
Proof. cbv [randint0 next]. by rewrite Nat.mod_1_r. Qed.

(** With a single sample the three other loops without a cap skip every
    candidate as well. *)
Lemma single_sample_loops_never_end fuel e num g :
  (0 < num)%Z ->
  (shape0 e = 1 -> forall cml ccl,
     while fuel num_cond (proteins_body e cml ccl) (St no_pairs num g) = None) /\
  (shape1 e = 1 -> forall c,
     while fuel num_cond (CD_markers_body e c) (St no_pairs num g) = None) /\
  (shape0 e = 1 -> forall y_pred ccl,
     while fuel num_cond (clustering_body e y_pred ccl) (St no_pairs num g) = None).
Proof.
  intros Hnum. split_and!; intros Hshape; intros;
    apply (while_diverges (fun s => acc s = no_pairs /\ ctr s = num)); try done;
    intros [p n g'] [Hp Hc]; simpl in *; simplify_eq;
    (split; [by apply Z.ltb_lt|]); eexists;
    unfold proteins_body, CD_markers_body, clustering_body;
    rewrite Hshape; cbn [py acc ctr]; rewrite !randint0_one; cbn; done.
Qed.

(** Two cells of one label offer two ordered must-link pairs: asked for
    three, with no error budget, the loop accepts at most those two and then
    skips every candidate. *)
Lemma random_pair_loop_infeasible_request fuel error_rate g :
  Fle (Fmul error_rate (Fint 3)) (Fint 0) = true ->
  random_pair_loop fuel [0; 0]%Z [0; 1] 3 error_rate g = None.
Proof.
  intros Hbudget. unfold random_pair_loop.
  apply (while_diverges (fun s =>
    NoDup (ml_pairs (acc s)) /\ ml_pairs (acc s) ⊆ [(0, 1); (1, 0)] /\
    length (ml_ind1 (acc s)) = length (ml_ind2 (acc s)) /\
    ctr s = ((3 - Z.of_nat (length (ml_pairs (acc s))))%Z, 0%Z))).
  2:{ split_and!; try done; [constructor|]. intros x Hx. by apply elem_of_nil in Hx. }
  intros [p [num en] g0] (Hnd & Hsub & Hlen & Hctr). simpl in *.
  injection Hctr as -> ->.
  assert (length (ml_pairs p) <= 2) as Hle.
  { apply (NoDup_incl_length (l' := [(0, 1); (1, 0)])).
    - by apply NoDup_ListNoDup.
    - intros x Hx%list_elem_of_In. apply list_elem_of_In. by apply Hsub. }
  split; [unfold random_pair_cond; simpl; apply Z.ltb_lt; lia|].
  unfold random_pair_body. cbn [ctr py acc]. cbv [choice next].
  cbn [mbind result_bind length].
  set (tmp1 := nth _ [0; 1] 0). set (tmp2 := nth _ [0; 1] 0).
  assert (forall r, nth (r mod 2) [0; 1] 0 = 0 \/ nth (r mod 2) [0; 1] 0 = 1)
    as Hbit.
  { intros r. pose proof (Nat.mod_upper_bound r 2).
    destruct (r mod 2) as [|[|?]]; simpl; auto; lia. }
  assert (tmp1 = 0 \/ tmp1 = 1) as H1 by apply Hbit.
  assert (tmp2 = 0 \/ tmp2 = 1) as H2 by apply Hbit.
  clearbody tmp1 tmp2.
  destruct (tmp1 =? tmp2) eqn:Heq.
  { eexists. split; [done|]. simpl. by split_and!. }
  destruct (check_ind tmp1 tmp2 (ml_ind1 p) (ml_ind2 p)) eqn:Hchk.
  { eexists. split; [done|]. simpl. by split_and!. }
  apply Nat.eqb_neq in Heq.
  assert ((tmp1, tmp2) ∈ [(0, 1); (1, 0)]) as Hin.
  { destruct H1 as [-> | ->], H2 as [-> | ->]; try done;
      [left|right; left]. }
  assert ([0; 0]%Z !! tmp1 = Some 0%Z /\ [0; 0]%Z !! tmp2 = Some 0%Z) as [-> ->].
  { destruct H1 as [-> | ->], H2 as [-> | ->]; done. }
  simpl. rewrite Hbudget. eexists. split; [done|].
  unfold ml_pairs in *. simpl. rewrite zip_snoc by done.
  split_and!.
  - apply NoDup_app. split_and!; [done| |apply NoDup_singleton].
    intros x Hx ->%list_elem_of_singleton. apply check_ind_spec in Hx. congruence.
  - intros x [Hx| ->%list_elem_of_singleton]%elem_of_app; [by apply Hsub|done].
  - rewrite !length_app. simpl. lia.
  - rewrite length_app. simpl. f_equal. lia.
Qed.

End Termination.

(** C1. [generate_random_pair] puts no cap on its attempts, unlike
    [generate_random_pair_from_two_CDs] and
    [generate_random_pair_from_one_CD]: asked for one pair from a pool of one
    index it is still running after any number of iterations, whatever the
    labels, the error rate and the draws. *)
Theorem generate_random_pair_can_hang `{NumLib} fuel y i error_rate g np :
  generate_random_pair fuel y [i] 1 error_rate g np = None.
Proof.
  unfold generate_random_pair.
  by rewrite random_pair_loop_single_pool.
Qed.

(** ** Counting the constraints *)

Lemma shuffle_counted p np p' :
  shuffle p np = Ok p' -> counted p' = counted p.
Proof.
  unfold shuffle. intros Hs.
  pose proof (np_permutation_perm (length (ml_ind1 p)) np) as Pm.
  destruct (np_permutation (length (ml_ind1 p)) np) as [mi np1].
  pose proof (np_permutation_perm (length (cl_ind1 p)) np1) as Pc.
  destruct (np_permutation (length (cl_ind1 p)) np1) as [ci np2].
  cbn [fst] in Pm, Pc.
  destruct (take_indices (ml_ind1 p) mi) as [m1|] eqn:E1; [|done].
  destruct (take_indices (ml_ind2 p) mi) as [m2|] eqn:E2; [|done].
  destruct (take_indices (cl_ind1 p) ci) as [c1|] eqn:E3; [|done].
  destruct (take_indices (cl_ind2 p) ci) as [c2|] eqn:E4; [|done].
  cbn in Hs. simplify_eq. unfold counted. simpl.
  apply take_indices_length in E1, E3.
  apply Permutation_length in Pm, Pc. rewrite length_seq in Pm, Pc. lia.
Qed.

Section Counting.
Context `{NumLib}.

(** Each iteration moves one unit from [num] to the lists, or nothing. *)
Lemma random_pair_body_count y pool num0 er s s' :
  random_pair_body y pool num0 er s = Ok s' ->
  (counted (acc s') + (ctr s').1 = counted (acc s) + (ctr s).1 /\
   (ctr s).1 - 1 <= (ctr s').1)%Z.
Proof.
  destruct s as [p [num en] g]. unfold random_pair_body. cbn [acc ctr py].
  cbv beta delta [mbind result_bind]. intros Hb. count_cases.
Qed.

Lemma proteins_body_count e cml ccl s s' :
  proteins_body e cml ccl s = Ok s' ->
  (counted (acc s') + ctr s' = counted (acc s) + ctr s /\
   ctr s - 1 <= ctr s')%Z.
Proof.
  destruct s as [p num g]. unfold proteins_body. cbn [acc ctr py].
  cbv beta delta [mbind result_bind]. intros Hb. count_cases.
Qed.

Lemma two_CDs_body_count e th s s' :
  two_CDs_body e th s = Ok s' ->
  (counted (acc s') + (ctr s').1 = counted (acc s) + (ctr s).1 /\
   (ctr s).1 - 1 <= (ctr s').1)%Z.
Proof.
  destruct s as [p [num k] g], th as [[[lc1 lc2] mc1] mc2].
  unfold two_CDs_body. cbn [acc ctr py].
  cbv beta delta [mbind result_bind]. intros Hb. count_cases.
Qed.

Lemma CD_markers_body_count m c s s' :
  CD_markers_body m c s = Ok s' ->
  (counted (acc s') + ctr s' = counted (acc s) + ctr s /\
   ctr s - 1 <= ctr s')%Z.
Proof.
  destruct s as [p num g]. unfold CD_markers_body. cbn [acc ctr py].
  cbv beta delta [mbind result_bind]. intros Hb. count_cases.
Qed.

Lemma clustering_body_count e y_pred ccl s s' :
  clustering_body e y_pred ccl s = Ok s' ->
  (counted (acc s') + ctr s' = counted (acc s) + ctr s /\
   ctr s - 1 <= ctr s')%Z.
Proof.
  destruct s as [p num g]. unfold clustering_body. cbn [acc ctr py].
  cbv beta delta [mbind result_bind]. intros Hb. count_cases.
Qed.

(** A loop over a single budget [num]: when it ends, the lists hold what is
    missing from the budget, and the budget is not overdrawn. *)
Lemma while_count {C : Type} (num_of : C -> Z) cond
    (body : state C -> result (state C)) (num0 : Z) :
  (forall s, cond s = true -> (0 < num_of (ctr s))%Z) ->
  (forall s s', body s = Ok s' ->
     (counted (acc s') + num_of (ctr s') = counted (acc s) + num_of (ctr s) /\
      num_of (ctr s) - 1 <= num_of (ctr s'))%Z) ->
  forall fuel s s',
    (0 <= num0)%Z -> acc s = no_pairs -> num_of (ctr s) = num0 ->
    while fuel cond body s = Some (Ok s') ->
    (counted (acc s') + num_of (ctr s') = num0 /\ 0 <= num_of (ctr s'))%Z
    /\ cond s' = false.
Proof.
  intros Hpos Hstep fuel s s' Hnum0 Hacc Hnum Hrun.
  eapply (while_inv (fun s =>
    (counted (acc s) + num_of (ctr s) = num0 /\ 0 <= num_of (ctr s))%Z));
    [|by rewrite Hacc, Hnum|exact Hrun].
  intros s1 s2 [Hc Hn] Hcond Hb.
  apply Hpos in Hcond. apply Hstep in Hb. lia.
Qed.

End Counting.

(** ** The two budgets of [generate_random_pair_from_one_CD] *)

Lemma Qpos_spec q : Qpos q = true <-> (0 < q)%Q.
Proof.
  unfold Qpos. rewrite negb_true_iff, <- not_true_iff_false, Qle_bool_iff.
  split; [apply Qnot_le_lt | apply Qlt_not_le].
Qed.

Lemma half_budget_spend num l a q :
  half_budget num l q -> Qpos q = true -> half_budget num (l ++ [a]) (q - 1)%Q.
Proof.
  intros [Heq Hlo] Hq%Qpos_spec. split.
  - rewrite length_app, Nat2Z.inj_add, inject_Z_plus.
    change (inject_Z (Z.of_nat (length [a]))) with 1%Q. lra.
  - lra.
Qed.

Lemma half_budget_bound num l q :
  half_budget num l q -> (2 * Z.of_nat (length l) <= num + 1)%Z.
Proof.
  intros [Heq Hlo]. apply Z.lt_succ_r. rewrite Zlt_Qlt.
  unfold Z.succ. rewrite !inject_Z_plus, inject_Z_mult.
  change (inject_Z 2) with 2%Q. change (inject_Z 1) with 1%Q. lra.
Qed.

Lemma half_budget_done num l q :
  half_budget num l q -> Qpos q = false -> (num <= 2 * Z.of_nat (length l))%Z.
Proof.
  intros [Heq Hlo] Hq. rewrite Zle_Qle, inject_Z_mult.
  change (inject_Z 2) with 2%Q.
  assert (~ (0 < q)%Q) as Hn by (rewrite <- Qpos_spec; congruence).
  apply Qnot_lt_le in Hn. lra.
Qed.

Section Budgets.
Context `{NumLib}.

Lemma one_CD_body_budget e th gene num s s' :
  one_CD_body e th gene s = Ok s' ->
  half_budget num (ml_ind1 (acc s)) (ctr s).1.1 ->
  half_budget num (cl_ind1 (acc s)) (ctr s).1.2 ->
  half_budget num (ml_ind1 (acc s')) (ctr s').1.1 /\
  half_budget num (cl_ind1 (acc s')) (ctr s').1.2.
Proof.
  destruct s as [p [[num1 num2] k] g], th as [lc1 mc1].
  unfold one_CD_body. cbn [acc ctr py fst snd].
  cbv beta delta [mbind result_bind]. intros Hb H1 H2.
  repeat case_match; simplify_eq; cbn [acc ctr fst snd add_ml add_cl ml_ind1 cl_ind1];
    try done;
    repeat match goal with
           | Hc : _ && _ = true |- _ => apply andb_true_iff in Hc as [? ?]
           end;
    split; try done; by apply half_budget_spend.
Qed.

Lemma one_CD_loop_count cap fuel e num LC HC gene g s :
  (0 <= num)%Z ->
  one_CD_loop cap fuel e num LC HC gene g = Some (Ok s) ->
  (2 * Z.of_nat (length (ml_ind1 (acc s))) <= num + 1 /\
   2 * Z.of_nat (length (cl_ind1 (acc s))) <= num + 1)%Z /\
  ((ctr s).2 < cap ->
   num <= 2 * Z.of_nat (length (ml_ind1 (acc s))) /\
   num <= 2 * Z.of_nat (length (cl_ind1 (acc s))))%Z.
Proof.
  intros Hnum. unfold one_CD_loop.
  destruct (one_CD_thresholds e LC HC gene) as [th|]; [|done]. simpl.
  intros Hrun.
  apply (while_inv (fun s =>
    half_budget num (ml_ind1 (acc s)) (ctr s).1.1 /\
    half_budget num (cl_ind1 (acc s)) (ctr s).1.2)) in Hrun as [[H1 H2] Hc].
  - split; [split; eapply half_budget_bound; eauto|].
    intros Hk. destruct s as [p [[n1 n2] k] g']. simpl in *.
    unfold one_CD_cond in Hc. simpl in Hc.
    apply andb_false_iff in Hc as [Hc|Hc%Z.ltb_ge]; [|lia].
    apply orb_false_iff in Hc as [Hc1 Hc2].
    split; eapply half_budget_done; eauto.
  - intros s1 s2 [H1 H2] _ Hb. by eapply one_CD_body_budget.
  - simpl. unfold half_budget. simpl.
    assert (inject_Z 0 <= inject_Z num)%Q by (by rewrite <- Zle_Qle).
    assert (2 * (inject_Z num / 2) == inject_Z num)%Q as Hhalf by field.
    change (inject_Z 0) with 0%Q in *.
    change (inject_Z (Z.of_nat 0)) with 0%Q.
    set (x := (inject_Z num / 2)%Q) in *. clearbody x.
    split; split; lra.
Qed.
End Budgets.

(** ** How many constraints come back *)

Section Requests.
Context `{NumLib}.

(** When their loop ends, the four generators without a cap hold exactly
    [num] constraints. *)
Lemma sample_count_uncapped c fuel g p :
  attempt_cap c = None -> (0 <= requested c)%Z ->
  sample c fuel g = Some (Ok p) -> counted p = requested c.
Proof.
  destruct c; cbn [attempt_cap requested sample]; intros Hcap Hnum;
    try discriminate Hcap; intros (s & Hl & Hk)%and_then_Ok; simplify_eq.
  - apply (while_count fst _ _ num) in Hl as [[Hc Hn] Hcond]; try done.
    + unfold random_pair_cond in Hcond. apply Z.ltb_ge in Hcond. lia.
    + intros s0 Hs0. by apply Z.ltb_lt.
    + apply random_pair_body_count.
  - unfold proteins_loop in Hl.
    destruct (distance_cutoffs _ _ _) as [cut|]; [|done]. simpl in Hl.
    apply (while_count id _ _ num) in Hl as [[Hc Hn] Hcond]; try done.
    + unfold num_cond in Hcond. apply Z.ltb_ge in Hcond. unfold id in *. lia.
    + intros s0 Hs0. by apply Z.ltb_lt.
    + apply proteins_body_count.
  - unfold CD_markers_loop in Hl.
    destruct (CD_markers_cutoffs _ _ _ _ _) as [cut|]; [|done]. simpl in Hl.
    apply (while_count id _ _ num) in Hl as [[Hc Hn] Hcond]; try done.
    + unfold num_cond in Hcond. apply Z.ltb_ge in Hcond. unfold id in *. lia.
    + intros s0 Hs0. by apply Z.ltb_lt.
    + apply CD_markers_body_count.
  - unfold clustering_loop in Hl.
    destruct (clustering_setup _ _ _ _) as [su|]; [|done]. simpl in Hl.
    apply (while_count id _ _ num) in Hl as [[Hc Hn] Hcond]; try done.
    + unfold num_cond in Hcond. apply Z.ltb_ge in Hcond. unfold id in *. lia.
    + intros s0 Hs0. by apply Z.ltb_lt.
    + apply clustering_body_count.
Qed.

(** X2. The four generators without a cap return exactly [num]
    constraints, for every [num >= 0]. *)
Lemma request_met_without_cap c fuel g np out :
  attempt_cap c = None -> (0 <= requested c)%Z ->
  run c fuel g np = Some (Ok out) -> counted out = requested c.
Proof.
  intros Hcap Hnum (p & Hp & Hs)%run_sample.
  rewrite (shuffle_counted _ _ _ Hs). by eapply sample_count_uncapped.
Qed.

(** X3. The loop of [generate_random_pair_from_two_CDs] ends with at most
    [num] constraints, and with exactly [num] when it ends below the cap. *)
Lemma two_CDs_loop_count cap fuel e num LC HC g s :
  (0 <= num)%Z -> two_CDs_loop cap fuel e num LC HC g = Some (Ok s) ->
  (counted (acc s) <= num)%Z /\
  (((ctr s).2 < cap)%Z -> counted (acc s) = num).
Proof.
  intros Hnum. unfold two_CDs_loop.
  destruct (two_CDs_thresholds e LC HC) as [th|]; [|done]. simpl. intros Hl.
  apply (while_inv (fun s =>
    (counted (acc s) + (ctr s).1 = num /\ 0 <= (ctr s).1)%Z))
    in Hl as [[Hc Hn] Hcond]; [| |done].
  - split; [lia|]. intros Hk. unfold two_CDs_cond in Hcond.
    apply andb_false_iff in Hcond as [Hz%Z.ltb_ge|Hz%Z.ltb_ge]; lia.
  - intros s1 s2 [Hc Hn] [Hpos%Z.ltb_lt _]%andb_true_iff Hb.
    apply two_CDs_body_count in Hb. lia.
Qed.

(** [generate_random_pair_from_one_CD] asked for an odd [num] returns
    [num + 1] constraints whenever its loop ends below the cap: each of the
    two budgets [num / 2] is spent until it is no longer positive. *)
Lemma one_CD_odd_request cap fuel e num LC HC gene g s :
  (0 <= num)%Z -> Z.odd num = true ->
  one_CD_loop cap fuel e num LC HC gene g = Some (Ok s) ->
  ((ctr s).2 < cap)%Z -> counted (acc s) = (num + 1)%Z.
Proof.
  intros Hnum Hodd Hl Hk.
  destruct (one_CD_loop_count _ _ _ _ _ _ _ _ _ Hnum Hl) as [[U1 U2] L].
  destruct (L Hk) as [L1 L2].
  apply Z.odd_spec in Hodd as [m ->]. unfold counted. lia.
Qed.

(** Asked for an even [num] it returns at most [num] constraints, and
    exactly [num] when its loop ends below the cap. *)
Lemma one_CD_even_request cap fuel e num LC HC gene g s :
  (0 <= num)%Z -> Z.even num = true ->
  one_CD_loop cap fuel e num LC HC gene g = Some (Ok s) ->
  (counted (acc s) <= num)%Z /\
  (((ctr s).2 < cap)%Z -> counted (acc s) = num).
Proof.
  intros Hnum Heven Hl.
  destruct (one_CD_loop_count _ _ _ _ _ _ _ _ _ Hnum Hl) as [[U1 U2] L].
  apply Z.even_spec in Heven as [m ->]. unfold counted. split; [lia|].
  intros Hk. destruct (L Hk). lia.
Qed.

End Requests.

(** C2. [generate_random_pair_from_one_CD] asked for one constraint returns
    two, a must-link pair and a cannot-link pair, its loop ending after two
    attempts: the budgets [num / 2] of the two lists are both 0.5 and each
    allows one pair. *)
Theorem one_CD_exceeds_the_request :
  let c := @FromOneCD QLib one_gene 1 20%Q 50%Q 0 in
  exists out,
    run c 2 (replay [2; 3; 2; 0]) (replay []) = Some (Ok out) /\
    out = Pairs [2] [3] [2] [0] /\
    (requested c < counted out)%Z.
Proof. eexists. split; [vm_compute; reflexivity|]. split; [done|]. by vm_compute. Qed.

(** ** The decision table of the marker generator *)

(** C5. [generate_random_pair_from_CD_markers] settles a candidate of two
    distinct indices that is not yet a must-link pair by a fixed table of
    seven patterns, two for cannot-link followed by five for must-link: the
    first pattern that holds decides, and a candidate no pattern holds of is
    rejected. *)
Theorem CD_markers_decision_table `{NumLib} markers c s :
  map fst (CD_markers_table markers c)
    = [CannotLink; CannotLink;
       MustLink; MustLink; MustLink; MustLink; MustLink] /\
  CD_markers_body markers c s =
    ('(tmp1, g) ← randint0 (shape1 markers) (py s);
     '(tmp2, g) ← randint0 (shape1 markers) g;
     if tmp1 =? tmp2 then Ok (St (acc s) (ctr s) g)
     else if check_ind tmp1 tmp2 (ml_ind1 (acc s)) (ml_ind2 (acc s))
     then Ok (St (acc s) (ctr s) g)
     else Ok (settle (first_match (CD_markers_table markers c) tmp1 tmp2)
                tmp1 tmp2 s g)).
Proof.
  split; [done|].
  unfold CD_markers_body. cbv beta delta [mbind result_bind].
  destruct (randint0 (shape1 markers) (py s)) as [[tmp1 g1]|]; [|done].
  destruct (randint0 (shape1 markers) g1) as [[tmp2 g2]|]; [|done].
  destruct (tmp1 =? tmp2); [done|].
  destruct (check_ind _ _ _ _); [done|].
  unfold CD_markers_table, first_match, settle.
  repeat (case_match; [done|]). done.
Qed.

(** Every row of the table is needed: for each of the seven there is a
    candidate in [four_markers] that this row alone describes. *)
Example CD_markers_rows_are_independent :
  let t := CD_markers_table four_markers four_markers_cutoffs in
  map (fun r => r.2 0 1) t = [true; false; false; false; false; false; false] /\
  map (fun r => r.2 1 0) t = [false; true; false; false; false; false; false] /\
  map (fun r => r.2 2 3) t = [false; false; true; false; false; false; false] /\
  map (fun r => r.2 7 9) t = [false; false; false; true; false; false; false] /\
  map (fun r => r.2 4 5) t = [false; false; false; false; true; false; false] /\
  map (fun r => r.2 6 7) t = [false; false; false; false; false; true; false] /\
  map (fun r => r.2 8 9) t = [false; false; false; false; false; false; true].
Proof. vm_compute. by split_and!. Qed.

(** The table has no six rows with four must-link patterns among them: the
    candidate (8, 9) of [four_markers] fits none of the first six patterns,
    and the generator returns it as a must-link pair. *)
Lemma CD_markers_seventh_pattern :
  let t := CD_markers_table four_markers four_markers_cutoffs in
  ~ (length t = 6 /\
     length (filter (fun r => r.1 = MustLink) t) = 4) /\
  first_match (take 6 t) 8 9 = None /\
  first_match t 8 9 = Some MustLink /\
  run (FromCDMarkers four_markers 1 (4 # 10) (6 # 10) (2 # 10) (8 # 10))%Q
    1 (replay [8; 9]) (replay []) = Some (Ok (Pairs [8] [9] [] [])).
Proof.
  split_and!.
  - intros [Hlen _]. discriminate Hlen.
  - by vm_compute.
  - by vm_compute.
  - by vm_compute.
Qed.

(** ** The cutoffs of the distance-based generator *)

Section Distances.
Context `{NumLib}.

Lemma proteins_body_cutoffs e cml ccl s s' :
  proteins_body e cml ccl s = Ok s' ->
  length (ml_ind1 (acc s)) = length (ml_ind2 (acc s)) ->
  length (cl_ind1 (acc s)) = length (cl_ind2 (acc s)) ->
  Forall (closer_than e cml) (ml_pairs (acc s)) ->
  Forall (farther_than e ccl) (cl_pairs (acc s)) ->
  Forall (closer_than e cml) (ml_pairs (acc s')) /\
  Forall (farther_than e ccl) (cl_pairs (acc s')).
Proof.
  destruct s as [p num g]. unfold proteins_body. cbn [acc ctr py].
  cbv beta delta [mbind result_bind]. intros Hb Lm Lc Hm Hc.
  repeat case_match; simplify_eq; cbn [acc]; try done;
    unfold ml_pairs, cl_pairs in *; simpl; rewrite ?zip_snoc by done;
    split; try done; apply Forall_app; split; try done;
    by apply Forall_singleton.
Qed.

Lemma proteins_loop_cutoffs fuel e num ML CL g s :
  proteins_loop fuel e num ML CL g = Some (Ok s) ->
  exists cutoff_ML cutoff_CL,
    distance_cutoffs e ML CL = Ok (cutoff_ML, cutoff_CL) /\
    Forall (closer_than e cutoff_ML) (ml_pairs (acc s)) /\
    Forall (farther_than e cutoff_CL) (cl_pairs (acc s)).
Proof.
  unfold proteins_loop.
  destruct (distance_cutoffs e ML CL) as [[cml ccl]|]; [|done]. simpl.
  intros Hl. exists cml, ccl. split; [done|].
  apply (while_inv (fun s =>
    sound (fun i => i < shape0 e) (acc s) /\
    Forall (closer_than e cml) (ml_pairs (acc s)) /\
    Forall (farther_than e ccl) (cl_pairs (acc s)))) in Hl as [(_ & Hm & Hc) _];
    [done| |].
  - intros s1 s2 (Hs & Hm & Hc) _ Hb. split.
    + eapply grows_sound; [exact Hs|]. by eapply proteins_body_grows.
    + destruct Hs. by eapply proteins_body_cutoffs.
  - split; [apply sound_no_pairs|]. split; constructor.
Qed.

End Distances.

(** C6. Every must-link pair returned by [generate_random_pair_from_proteins]
    has its rows at a distance strictly below the [ML]-quantile of the
    non-zero entries under the diagonal of the pairwise distances, every
    cannot-link pair at a distance strictly above their [CL]-quantile; a
    candidate that is neither leaves the lists and [num] as they are. *)
Theorem proteins_pairs_respect_the_cutoffs `{NumLib} e :
  (forall fuel num ML CL g np out,
     generate_random_pair_from_proteins fuel e num ML CL g np = Some (Ok out) ->
     exists latent_dist cutoff_ML cutoff_CL,
       let latent_dist_vec :=
         filter (fun d => Fgt d Fzero = true) (concat (tril1 latent_dist)) in
       euclidean_distances (rows e) (rows e) = Ok latent_dist /\
       np_quantile latent_dist_vec ML = Ok cutoff_ML /\
       np_quantile latent_dist_vec CL = Ok cutoff_CL /\
       Forall (closer_than e cutoff_ML) (ml_pairs out) /\
       Forall (farther_than e cutoff_CL) (cl_pairs out)) /\
  (forall cutoff_ML cutoff_CL s tmp1 tmp2 g1 g2,
     randint0 (shape0 e) (py s) = Ok (tmp1, g1) ->
     randint0 (shape0 e) g1 = Ok (tmp2, g2) ->
     Flt (pair_norm e tmp1 tmp2) cutoff_ML = false ->
     Fgt (pair_norm e tmp1 tmp2) cutoff_CL = false ->
     proteins_body e cutoff_ML cutoff_CL s = Ok (St (acc s) (ctr s) g2)).
Proof.
  split.
  - intros fuel num ML CL g np out (s & Hl & Hs)%and_then_Ok.
    pose proof (proteins_loop_sound _ _ _ _ _ _ _ Hl) as [Lm Lc _ _ _ _ _].
    destruct (proteins_loop_cutoffs _ _ _ _ _ _ _ Hl)
      as (cml & ccl & Hcut & Hm & Hc).
    destruct (shuffle_spec _ _ _ Hs Lm Lc) as [[_ Pm] [_ Pc]].
    unfold distance_cutoffs in Hcut.
    destruct (euclidean_distances (rows e) (rows e)) as [d|]; [|done].
    cbn in Hcut.
    destruct (np_quantile _ ML) as [qm|] eqn:Em; [|done].
    destruct (np_quantile _ CL) as [qc|] eqn:Ec; [|done].
    cbn in Hcut. simplify_eq. exists d, cml, ccl. cbn zeta.
    split_and!; try done; [by rewrite Pm | by rewrite Pc].
  - intros cml ccl s tmp1 tmp2 g1 g2 E1 E2 Hm Hc.
    unfold proteins_body. rewrite E1. cbn. rewrite E2. cbn.
    rewrite Hm, Hc. by repeat case_match.
Qed.

(** * Properties of the clustering accuracy *)

(** ** The contingency table *)

Lemma square_zeros D : square D (zeros D D).
Proof.
  split; [apply length_replicate|].
  apply Forall_replicate, length_replicate.
Qed.

Lemma square_incr D w p t : square D w -> square D (incr w p t).
Proof.
  intros [Hl Hr]. split; unfold incr.
  - by rewrite length_alter.
  - apply Forall_alter; [done|]. intros r Hr' Hlen. by rewrite length_alter.
Qed.

Lemma entry_zeros D i j : entry (zeros D D) i j = 0%Z.
Proof.
  unfold entry, zeros.
  destruct (decide (i < D)) as [Hi|Hi].
  - rewrite lookup_replicate_2 by done. simpl.
    destruct (decide (j < D)) as [Hj|Hj].
    + by rewrite lookup_replicate_2.
    + assert (replicate D 0%Z !! j = None) as -> by (apply lookup_replicate_None; lia).
      done.
  - assert (replicate D (replicate D 0%Z) !! i = None) as ->
      by (apply lookup_replicate_None; lia).
    done.
Qed.

Lemma entry_incr D w p t i j :
  square D w -> p < D -> t < D ->
  entry (incr w p t) i j
  = (entry w i j + if decide ((i, j) = (p, t)) then 1 else 0)%Z.
Proof.
  intros [Hl Hr] Hp Ht. unfold entry, incr.
  rewrite list_lookup_alter.
  destruct (decide (p = i)) as [->|Hpi].
  - destruct (lookup_lt_is_Some_2 w i) as [r Hr']; [lia|]. rewrite Hr'. simpl.
    rewrite list_lookup_alter.
    assert (length r = D) as Hlen by (eapply Forall_lookup_1 in Hr; eauto).
    destruct (decide (t = j)) as [->|Htj].
    + destruct (lookup_lt_is_Some_2 r j) as [x Hx]; [lia|]. rewrite Hx. simpl.
      rewrite decide_True by done. lia.
    + rewrite decide_False by congruence. lia.
  - rewrite decide_False by congruence. lia.
Qed.

Lemma entry_foldl D (l : list (nat * nat)) w i j :
  square D w -> Forall (fun pt => pt.1 < D /\ pt.2 < D) l ->
  entry (foldl (fun w pt => incr w pt.1 pt.2) w l) i j
  = (entry w i j + Z.of_nat (length (filter (fun pt => pt = (i, j)) l)))%Z.
Proof.
  revert w. induction l as [|[p t] l IH]; intros w Hw Hl; simpl; [lia|].
  apply Forall_cons in Hl as [[Hp Ht] Hl]. simpl in *.
  rewrite IH by (try apply square_incr; done).
  rewrite (entry_incr D) by done.
  rewrite filter_cons. 
  destruct (decide ((i, j) = (p, t))) as [Heq|Hne].
  - rewrite decide_True by done. simpl. lia.
  - rewrite decide_False by congruence. lia.
Qed.

Lemma entry_contingency D yp yt i j :
  Forall (fun p => p < D) yp -> Forall (fun t => t < D) yt ->
  entry (contingency D yp yt) i j = cooc yp yt i j.
Proof.
  intros Hp Ht. unfold contingency, cooc.
  rewrite (entry_foldl D), entry_zeros; [lia|apply square_zeros|].
  apply Forall_forall. intros [p t] Hin.
  apply elem_of_zip_l in Hin as Hin1. apply elem_of_zip_r in Hin as Hin2. simpl in *.
  rewrite Forall_forall in Hp, Ht. eauto.
Qed.

Lemma square_contingency D yp yt : square D (contingency D yp yt).
Proof.
  unfold contingency. generalize (zeros D D) (square_zeros D).
  induction (zip yp yt) as [|pt l IH]; intros w Hw; simpl; [done|].
  apply IH. by apply square_incr.
Qed.

(** ** Assignments and their scores *)

Lemma Zsum_app l1 l2 : Zsum (l1 ++ l2) = (Zsum l1 + Zsum l2)%Z.
Proof. unfold Zsum. induction l1 as [|x l1 IH]; simpl; lia. Qed.

Lemma Zsum_perm l1 l2 : l1 ≡ₚ l2 -> Zsum l1 = Zsum l2.
Proof. unfold Zsum. induction 1; simpl; lia. Qed.

Lemma Zsum_map_ext {A : Type} (f g : A -> Z) l :
  (forall x, x ∈ l -> f x = g x) -> Zsum (map f l) = Zsum (map g l).
Proof.
  intros Hfg. f_equal. apply map_ext_in. intros x Hx. apply Hfg.
  by apply list_elem_of_In.
Qed.

Lemma Zsum_map_le {A : Type} (f g : A -> Z) l :
  (forall x, x ∈ l -> (f x <= g x)%Z) -> (Zsum (map f l) <= Zsum (map g l))%Z.
Proof.
  induction l as [|x l IH]; intros Hfg; simpl; [done|].
  assert (f x <= g x)%Z by (apply Hfg; left).
  assert (Zsum (map f l) <= Zsum (map g l))%Z by (apply IH; intros; apply Hfg; by right).
  unfold Zsum in *. lia.
Qed.

Lemma Zsum_map_sub {A : Type} (m : Z) (f : A -> Z) l :
  Zsum (map (fun x => m - f x)%Z l)
  = (Z.of_nat (length l) * m - Zsum (map f l))%Z.
Proof. unfold Zsum. induction l as [|x l IH]; simpl length; simpl foldr; simpl map; [lia|]. simpl. lia. Qed.

Lemma zip_seq_nth (sigma : list nat) a :
  zip (seq a (length sigma)) sigma
  = map (fun i => (i, nth (i - a) sigma 0)) (seq a (length sigma)).
Proof.
  revert a. induction sigma as [|x sigma IH]; intros a; simpl; [done|].
  rewrite Nat.sub_diag. f_equal. rewrite IH.
  apply map_ext_in. intros i Hi%in_seq.
  replace (i - a) with (S (i - S a)) by lia. done.
Qed.

(** The members of a permutation of [0 .. D-1]. *)
Lemma perm_seq_length (sigma : list nat) D : sigma ≡ₚ seq 0 D -> length sigma = D.
Proof. intros Hp. apply Permutation_length in Hp. by rewrite length_seq in Hp. Qed.

Lemma perm_seq_nth (sigma : list nat) D i :
  sigma ≡ₚ seq 0 D -> i < D -> nth i sigma 0 < D.
Proof.
  intros Hp Hi.
  assert (nth i sigma 0 ∈ seq 0 D) as Hin.
  { rewrite <- Hp. apply list_elem_of_In, nth_In.
    by rewrite (perm_seq_length _ _ Hp). }
  apply list_elem_of_In, in_seq in Hin. lia.
Qed.

Lemma assignment_cost_score C D sigma :
  length sigma = D -> assignment_cost C sigma = score (entry C) D sigma.
Proof.
  intros <-. unfold assignment_cost, score.
  rewrite zip_seq_nth, map_map. simpl. f_equal.
  apply map_ext. intros i. by rewrite Nat.sub_0_r.
Qed.

Lemma score_ext c c' D sigma :
  sigma ≡ₚ seq 0 D ->
  (forall i j, i < D -> j < D -> c i j = c' i j) ->
  score c D sigma = score c' D sigma.
Proof.
  intros Hp Hc. unfold score. apply Zsum_map_ext.
  intros i Hi%list_elem_of_In%in_seq. apply Hc; [lia|].
  apply (perm_seq_nth _ _ _ Hp). lia.
Qed.

Lemma entry_flip_costs D w i j :
  square D w -> i < D -> j < D ->
  entry (flip_costs w) i j = (matrix_max w - entry w i j)%Z.
Proof.
  intros [Hl Hr] Hi Hj. unfold entry, flip_costs.
  rewrite list_lookup_fmap.
  destruct (lookup_lt_is_Some_2 w i) as [r Hr']; [lia|]. rewrite Hr'. simpl.
  assert (length r = D) as Hlen by (eapply Forall_lookup_1 in Hr; eauto).
  rewrite list_lookup_fmap.
  destruct (lookup_lt_is_Some_2 r j) as [x Hx]; [lia|]. by rewrite Hx.
Qed.

Lemma score_flip_costs D w sigma :
  square D w -> sigma ≡ₚ seq 0 D ->
  score (entry (flip_costs w)) D sigma
  = (Z.of_nat D * matrix_max w - score (entry w) D sigma)%Z.
Proof.
  intros Hw Hp. unfold score.
  pose proof (Zsum_map_sub (matrix_max w)
                (fun i => entry w i (nth i sigma 0)) (seq 0 D)) as Hsub.
  rewrite length_seq in Hsub. rewrite <- Hsub.
  apply Zsum_map_ext. intros i Hi%list_elem_of_In%in_seq.
  apply (entry_flip_costs D); [done|lia|].
  apply (perm_seq_nth _ _ _ Hp). lia.
Qed.

Lemma argmin_spec {A : Type} (f : A -> Z) d l :
  argmin f d l ∈ d :: l /\ forall x, x ∈ d :: l -> (f (argmin f d l) <= f x)%Z.
Proof.
  revert d. induction l as [|y l IH]; intros d; simpl.
  - split; [left|]. intros x ->%list_elem_of_singleton. lia.
  - destruct (IH y) as [Hin Hmin].
    destruct (Z.ltb_spec (f (argmin f y l)) (f d)) as [Hlt|Hge].
    + split; [by right|]. intros x [->|Hx]%elem_of_cons; [lia|by apply Hmin].
    + split; [left|]. intros x [->|Hx]%elem_of_cons; [lia|].
      specialize (Hmin x Hx). lia.
Qed.

(** The assignment the library returns for the flipped contingency table
    is one of maximal agreement. *)
Lemma linear_assignment_optimal D w :
  square D w ->
  exists sigma,
    linear_assignment (flip_costs w) = zip (seq 0 D) sigma /\
    optimal (entry w) D sigma.
Proof.
  intros Hw. unfold linear_assignment.
  assert (length (flip_costs w) = D) as ->.
  { unfold flip_costs. rewrite length_map. apply Hw. }
  destruct (permutations (seq 0 D)) as [|s ss] eqn:Hperms.
  { pose proof (permutations_refl (seq 0 D)) as Hin. rewrite Hperms in Hin.
    by apply elem_of_nil in Hin. }
  destruct (argmin_spec (assignment_cost (flip_costs w)) s ss) as [Hin Hmin].
  set (sigma := argmin (assignment_cost (flip_costs w)) s ss) in *.
  exists sigma. split; [done|].
  rewrite <- Hperms in Hin, Hmin.
  apply permutations_Permutation in Hin. symmetry in Hin.
  split; [done|]. intros tau Htau.
  assert (tau ∈ permutations (seq 0 D)) as Hin'
    by (by apply permutations_Permutation).
  specialize (Hmin tau Hin').
  rewrite !(assignment_cost_score _ D) in Hmin
    by (by apply perm_seq_length).
  rewrite !(score_flip_costs D) in Hmin by done. lia.
Qed.

Lemma labels_below_table_size y_true y_pred :
  Forall (fun p => p < table_size y_true y_pred) y_pred /\
  Forall (fun t => t < table_size y_true y_pred) y_true.
Proof.
  unfold table_size. split; apply Forall_forall; intros x Hx;
    apply max_list_elem_of_le in Hx; lia.
Qed.

Lemma optimal_ext c c' D sigma :
  (forall i j, i < D -> j < D -> c i j = c' i j) ->
  optimal c D sigma -> optimal c' D sigma.
Proof.
  intros Hc [Hp Hopt]. split; [done|]. intros tau Htau.
  rewrite <- (score_ext c c' D tau), <- (score_ext c c' D sigma) by done.
  by apply Hopt.
Qed.

(** On vectors of one size that are not empty, [cluster_acc] returns the
    agreement of an optimal assignment divided by the number of samples. *)
Lemma cluster_acc_returns y_true y_pred :
  length y_pred = length y_true -> y_pred <> [] ->
  exists sigma,
    optimal (cooc y_pred y_true) (table_size y_true y_pred) sigma /\
    cluster_acc y_true y_pred
    = Ok (inject_Z (score (cooc y_pred y_true) (table_size y_true y_pred) sigma)
          * 1 / inject_Z (Z.of_nat (length y_pred)))%Q.
Proof.
  intros Hlen Hne. unfold cluster_acc. rewrite Hlen, Nat.eqb_refl. simpl.
  destruct y_pred as [|p yp]; [done|].
  destruct y_true as [|t yt]; [done|].
  cbn [np_max mbind result_bind].
  set (y_pred := p :: yp) in *. set (y_true := t :: yt) in *.
  fold (table_size y_true y_pred).
  set (D := table_size y_true y_pred).
  destruct (labels_below_table_size y_true y_pred) as [Hp Ht]. fold D in Hp, Ht.
  destruct (linear_assignment_optimal D (contingency D y_pred y_true))
    as (sigma & -> & Hopt); [apply square_contingency|].
  assert (forall i j, i < D -> j < D ->
            entry (contingency D y_pred y_true) i j = cooc y_pred y_true i j)
    as Hentry by (intros; by apply entry_contingency).
  exists sigma. split; [by eapply optimal_ext|].
  do 3 f_equal.
  pose proof (perm_seq_length _ _ (proj1 Hopt)) as Hs.
  rewrite <- (score_ext _ _ D sigma (proj1 Hopt) Hentry).
  rewrite <- (assignment_cost_score _ D) by done.
  unfold assignment_cost. by rewrite Hs.
Qed.

(** ** Bounds on the agreement *)

Lemma cooc_nonneg yp yt p t : (0 <= cooc yp yt p t)%Z.
Proof. unfold cooc. lia. Qed.

Lemma Zsum_nonneg l : Forall (fun x => 0 <= x)%Z l -> (0 <= Zsum l)%Z.
Proof. unfold Zsum. induction 1; simpl; lia. Qed.

(** Distinct keys count distinct members of a list. *)
Lemma count_keys_le {A : Type} `{EqDecision A} (keys l : list A) :
  NoDup keys ->
  (Zsum (map (fun k => Z.of_nat (length (filter (fun x => x = k) l))) keys)
   <= Z.of_nat (length l))%Z.
Proof.
  intros Hnd. induction l as [|x l IH]; simpl.
  - induction keys as [|k keys IHk]; simpl; [done|].
    apply NoDup_cons in Hnd as [_ Hnd]. specialize (IHk Hnd).
    unfold Zsum in *. simpl. lia.
  - assert (Zsum (map (fun k => Z.of_nat (length (filter (fun y => y = k) (x :: l)))) keys)
            <= Zsum (map (fun k => Z.of_nat (length (filter (fun y => y = k) l))) keys) + 1)%Z;
      [|lia].
    clear IH. induction Hnd as [|k keys Hk Hnd IHk]; simpl; [unfold Zsum; simpl; lia|].
    rewrite filter_cons. destruct (decide (x = k)) as [->|Hne].
    + (* the other keys differ from [k] *)
      assert (Zsum (map (fun k0 => Z.of_nat (length (filter (fun y => y = k0) (k :: l)))) keys)
              = Zsum (map (fun k0 => Z.of_nat (length (filter (fun y => y = k0) l))) keys)) as ->.
      { apply Zsum_map_ext. intros k0 Hk0. rewrite filter_cons.
        rewrite decide_False; [done|]. intros ->. done. }
      unfold Zsum in *. simpl. lia.
    + unfold Zsum in *. simpl. lia.
Qed.

Lemma score_bounds yp yt D sigma :
  (0 <= score (cooc yp yt) D sigma <= Z.of_nat (length (zip yp yt)))%Z.
Proof.
  split.
  - unfold score. apply Zsum_nonneg, Forall_forall.
    intros x (i & -> & _)%list_elem_of_fmap. apply cooc_nonneg.
  - unfold score, cooc.
    pose proof (count_keys_le (map (fun i => (i, nth i sigma 0)) (seq 0 D))
                  (zip yp yt)) as Hle.
    rewrite map_map in Hle. apply Hle.
    apply NoDup_fmap_2_strong; [|apply NoDup_seq].
    intros i j _ _ [= ->]. done.
Qed.

(** ** Comparing assignment problems *)

Lemma dominated_refl c D : dominated c D c D.
Proof. intros sigma Hs. exists sigma. split; [done|lia]. Qed.

Lemma dominated_trans c1 D1 c2 D2 c3 D3 :
  dominated c1 D1 c2 D2 -> dominated c2 D2 c3 D3 -> dominated c1 D1 c3 D3.
Proof.
  intros H12 H23 s1 Hs1.
  destruct (H12 s1 Hs1) as (s2 & Hs2 & Hle2).
  destruct (H23 s2 Hs2) as (s3 & Hs3 & Hle3).
  exists s3. split; [done|lia].
Qed.

Lemma optimal_scores_agree c1 D1 s1 c2 D2 s2 :
  optimal c1 D1 s1 -> optimal c2 D2 s2 ->
  dominated c1 D1 c2 D2 -> dominated c2 D2 c1 D1 ->
  score c1 D1 s1 = score c2 D2 s2.
Proof.
  intros [Hp1 Ho1] [Hp2 Ho2] H12 H21.
  destruct (H12 s1 Hp1) as (t2 & Ht2 & Hle2).
  destruct (H21 s2 Hp2) as (t1 & Ht1 & Hle1).
  specialize (Ho1 t1 Ht1). specialize (Ho2 t2 Ht2). lia.
Qed.

Lemma perm_of_bounded (l : list nat) D :
  NoDup l -> length l = D -> Forall (fun x => x < D) l -> l ≡ₚ seq 0 D.
Proof.
  intros Hnd Hlen Hlt.
  apply NoDup_Permutation_bis; [by apply NoDup_ListNoDup| |].
  - rewrite length_seq. lia.
  - intros x Hx. apply in_seq. rewrite Forall_forall in Hlt.
    specialize (Hlt x). rewrite list_elem_of_In in Hlt. specialize (Hlt Hx). lia.
Qed.

Lemma nth_map_seq {A : Type} (f : nat -> A) D i d :
  i < D -> nth i (map f (seq 0 D)) d = f i.
Proof.
  intros Hi. rewrite (nth_indep _ d (f 0)) by (by rewrite length_map, length_seq).
  rewrite map_nth. by rewrite seq_nth.
Qed.

(** *** Renaming the rows *)

Lemma dominated_relabel c1 c2 D rho :
  map rho (seq 0 D) ≡ₚ seq 0 D ->
  (forall q t, q < D -> t < D -> c2 q t = c1 (rho q) t) ->
  dominated c1 D c2 D.
Proof.
  intros Hrho Hc sigma Hs.
  pose proof (perm_seq_length _ _ Hs) as Hlen.
  assert (forall q, q < D -> rho q < D) as Hlt.
  { intros q Hq. assert (rho q ∈ seq 0 D) as Hin.
    { rewrite <- Hrho. apply list_elem_of_fmap. exists q. split; [done|].
      apply list_elem_of_In, in_seq. lia. }
    apply list_elem_of_In, in_seq in Hin. lia. }
  exists (map (fun q => nth (rho q) sigma 0) (seq 0 D)). split.
  - rewrite <- (map_map rho (fun p => nth p sigma 0)), Hrho.
    rewrite <- Hlen at 1. by rewrite map_nth_seq_id.
  - unfold score.
    rewrite <- (Zsum_perm _ _ (Permutation_map (fun p => c1 p (nth p sigma 0)) Hrho)).
    rewrite map_map. apply Z.eq_le_incl. apply Zsum_map_ext.
    intros q Hq%list_elem_of_In%in_seq.
    rewrite nth_map_seq by lia. symmetry. apply Hc; [lia|].
    apply (perm_seq_nth _ _ _ Hs). apply Hlt. lia.
Qed.

(** A one-to-one renaming of [0 .. D-1] has an inverse. *)
Lemma renaming_inverse rho D :
  map rho (seq 0 D) ≡ₚ seq 0 D ->
  exists rho', map rho' (seq 0 D) ≡ₚ seq 0 D /\
    forall q, q < D -> rho' q < D /\ rho (rho' q) = q.
Proof.
  intros Hrho.
  set (rho' := fun q => default 0 (head (filter (fun p => rho p = q) (seq 0 D)))).
  assert (forall q, q < D -> rho' q < D /\ rho (rho' q) = q) as Hinv.
  { intros q Hq. unfold rho'.
    assert (q ∈ map rho (seq 0 D)) as Hin.
    { rewrite Hrho. apply list_elem_of_In, in_seq. lia. }
    apply list_elem_of_fmap in Hin as (p & -> & Hp).
    destruct (filter (fun p0 => rho p0 = rho p) (seq 0 D)) as [|p0 l] eqn:Hf.
    - assert (p ∈ filter (fun p0 => rho p0 = rho p) (seq 0 D)) as Hpf
        by (by apply list_elem_of_filter).
      rewrite Hf in Hpf. by apply elem_of_nil in Hpf.
    - simpl. assert (p0 ∈ filter (fun p0 => rho p0 = rho p) (seq 0 D)) as Hpf
        by (rewrite Hf; left).
      apply list_elem_of_filter in Hpf as [Heq Hin%list_elem_of_In%in_seq].
      split; [lia|done]. }
  exists rho'. split; [|done].
  apply perm_of_bounded.
  - apply NoDup_fmap_2_strong; [|apply NoDup_seq].
    intros x y Hx%list_elem_of_In%in_seq Hy%list_elem_of_In%in_seq Heq.
    destruct (Hinv x) as [_ Ex]; [lia|]. destruct (Hinv y) as [_ Ey]; [lia|].
    congruence.
  - by rewrite length_map, length_seq.
  - apply Forall_forall. intros x (q & -> & Hq%list_elem_of_In%in_seq)%list_elem_of_fmap.
    apply Hinv. lia.
Qed.

(** *** Adding and removing an empty row and column *)

Lemma score_S c D sigma :
  score c (S D) sigma = (score c D sigma + c D (nth D sigma 0%nat))%Z.
Proof. unfold score. rewrite seq_S, map_app, Zsum_app. simpl. lia. Qed.

Lemma dominated_grow c D :
  (forall i j, 0 <= c i j)%Z -> dominated c D c (S D).
Proof.
  intros Hpos sigma Hs. pose proof (perm_seq_length _ _ Hs) as Hlen.
  exists (sigma ++ [D]). split.
  - rewrite seq_S. simpl. by apply Permutation_app_tail.
  - rewrite score_S. specialize (Hpos D (nth D (sigma ++ [D]) 0)).
    assert (score c D sigma = score c D (sigma ++ [D])) as <-; [|lia].
    unfold score. apply Zsum_map_ext. intros i Hi%list_elem_of_In%in_seq.
    f_equal. rewrite app_nth1; [done|lia].
Qed.

Lemma dominated_shrink c D :
  (forall i j, 0 <= c i j)%Z ->
  (forall i, c i D = 0%Z) -> (forall j, c D j = 0%Z) ->
  dominated c (S D) c D.
Proof.
  intros Hpos Hcol Hrow sigma Hs.
  pose proof (perm_seq_length _ _ Hs) as Hlen.
  assert (NoDup sigma) as Hnd by (rewrite Hs; apply NoDup_seq).
  assert (Forall (fun x => x < S D) sigma) as Hlt.
  { rewrite Hs. apply Forall_forall. intros x Hx%list_elem_of_In%in_seq. lia. }
  set (a := nth D sigma 0).
  assert (sigma = take D sigma ++ [a]) as Hsplit.
  { rewrite <- (take_drop D sigma) at 1. f_equal.
    assert (length (drop D sigma) = 1) as Hd by (rewrite length_drop; lia).
    destruct (drop D sigma) as [|x [|y l]] eqn:Hdrop; simplify_eq/=.
    unfold a. rewrite <- (take_drop D sigma), Hdrop.
    rewrite app_nth2; rewrite length_take; [|lia].
    replace (D - D `min` length sigma) with 0 by lia. done. }
  set (front := take D sigma) in *.
  assert (length front = D) as Hfl by (unfold front; rewrite length_take; lia).
  assert (nth D sigma 0 = a) as Hlast by done.
  clearbody front a.
  rewrite Hsplit in Hnd, Hlt.
  apply NoDup_app in Hnd as (Hndf & Hdisj & _).
  apply Forall_app in Hlt as [Hltf Hlta]. rewrite Forall_singleton in Hlta.
  assert (a ∉ front) as Ha by (intros Hin; apply (Hdisj a Hin); left).
  set (f := fun x => if x =? D then a else x).
  assert (forall x, x ∈ front -> f x < D) as Hf.
  { intros x Hx. unfold f. destruct (Nat.eqb_spec x D) as [->|Hne].
    - destruct (decide (a = D)) as [Heq|Hne]; [by rewrite Heq in Ha|lia].
    - rewrite Forall_forall in Hltf. specialize (Hltf x Hx). lia. }
  exists (map f front). split.
  - apply perm_of_bounded.
    + apply NoDup_fmap_2_strong; [|done].
      intros x y Hx Hy. unfold f.
      destruct (Nat.eqb_spec x D), (Nat.eqb_spec y D); intros Heq;
        [congruence|by rewrite Heq in Ha|by rewrite <- Heq in Ha|done].
    + by rewrite length_map.
    + apply Forall_forall. intros y (x & -> & Hx)%list_elem_of_fmap. by apply Hf.
  - rewrite score_S, Hrow. unfold score.
    rewrite Z.add_0_r. apply Zsum_map_le.
    intros i Hi%list_elem_of_In%in_seq.
    rewrite Hsplit, app_nth1 by lia.
    rewrite (nth_indep (map f front) 0 (f 0)) by (rewrite length_map; lia).
    rewrite map_nth. unfold f at 1.
    destruct (Nat.eqb_spec (nth i front 0) D) as [->|Hne]; [|lia].
    rewrite Hcol. apply Hpos.
Qed.

(** A table whose entries vanish from [D1] on poses the same problem at
    every size from [D1] on. *)
Lemma dominated_pad c D1 n :
  (forall i j, 0 <= c i j)%Z ->
  (forall i j, D1 <= i \/ D1 <= j -> c i j = 0%Z) ->
  dominated c D1 c (D1 + n) /\ dominated c (D1 + n) c D1.
Proof.
  intros Hpos Hzero. induction n as [|n [IH1 IH2]].
  - rewrite Nat.add_0_r. split; apply dominated_refl.
  - rewrite Nat.add_succ_r. split.
    + eapply dominated_trans; [exact IH1|]. by apply dominated_grow.
    + eapply dominated_trans; [|exact IH2].
      apply dominated_shrink; [done| |]; intros; apply Hzero; lia.
Qed.

(** ** Relabelling the predicted clusters *)

Lemma renaming_injective pi D x y :
  map pi (seq 0 D) ≡ₚ seq 0 D -> x < D -> y < D -> pi x = pi y -> x = y.
Proof.
  intros Hpi Hx Hy Heq.
  assert (NoDup (map pi (seq 0 D))) as Hnd by (rewrite Hpi; apply NoDup_seq).
  apply (NoDup_lookup _ x y (pi x) Hnd).
  - rewrite list_lookup_fmap, lookup_seq_lt by done. done.
  - rewrite list_lookup_fmap, lookup_seq_lt by done. simpl. by rewrite Heq.
Qed.

Lemma cooc_relabel pi D yp yt p t :
  (forall x y, x < D -> y < D -> pi x = pi y -> x = y) ->
  Forall (fun x => x < D) yp -> p < D ->
  cooc (map pi yp) yt (pi p) t = cooc yp yt p t.
Proof.
  intros Hinj Hyp Hp. unfold cooc. f_equal.
  revert yt. induction Hyp as [|x yp Hx Hyp IH]; intros [|y yt]; simpl; try done.
  rewrite !filter_cons.
  destruct (decide ((x, y) = (p, t))) as [[= -> ->]|Hne].
  - rewrite decide_True by done. simpl. by rewrite IH.
  - rewrite decide_False; [done|]. intros [= Hpi ->]. apply Hne.
    f_equal. by apply Hinj.
Qed.

Lemma cooc_outside D yp yt i j :
  Forall (fun x => x < D) yp -> Forall (fun x => x < D) yt ->
  D <= i \/ D <= j -> cooc yp yt i j = 0%Z.
Proof.
  intros Hp Ht Hij. unfold cooc.
  destruct (filter (fun pt => pt = (i, j)) (zip yp yt)) as [|x l] eqn:Hf; [done|].
  assert (x ∈ filter (fun pt => pt = (i, j)) (zip yp yt)) as Hx
    by (rewrite Hf; left).
  apply list_elem_of_filter in Hx as [-> Hin].
  apply elem_of_zip_l in Hin as Hi. apply elem_of_zip_r in Hin as Hj.
  rewrite Forall_forall in Hp, Ht. specialize (Hp _ Hi). specialize (Ht _ Hj). lia.
Qed.

Lemma max_list_below l m : Forall (fun x => x <= m) l -> max_list l <= m.
Proof. induction 1; simpl; lia. Qed.

Lemma table_size_relabel pi yt yp :
  let D := table_size yt yp in
  map pi (seq 0 D) ≡ₚ seq 0 D -> table_size yt (map pi yp) <= D.
Proof.
  intros D Hpi. destruct (labels_below_table_size yt yp) as [Hp Ht].
  fold D in Hp, Ht. unfold table_size at 1.
  assert (max_list (map pi yp) <= D - 1).
  { apply max_list_below, Forall_forall.
    intros y (x & -> & Hx)%list_elem_of_fmap.
    rewrite Forall_forall in Hp. specialize (Hp x Hx).
    assert (pi x ∈ seq 0 D) as Hin.
    { rewrite <- Hpi. apply list_elem_of_fmap. exists x. split; [done|].
      apply list_elem_of_In, in_seq. lia. }
    apply list_elem_of_In, in_seq in Hin. lia. }
  assert (max_list yt <= D - 1).
  { apply max_list_below. eapply Forall_impl; [exact Ht|]. simpl. lia. }
  assert (0 < D) by (unfold D, table_size; lia). lia.
Qed.

(** The two assignment problems, before and after the relabelling, have the
    same optimum. *)
Lemma relabel_same_problem pi yt yp :
  let D := table_size yt yp in
  let D' := table_size yt (map pi yp) in
  map pi (seq 0 D) ≡ₚ seq 0 D ->
  dominated (cooc yp yt) D (cooc (map pi yp) yt) D' /\
  dominated (cooc (map pi yp) yt) D' (cooc yp yt) D.
Proof.
  intros D D' Hpi.
  destruct (labels_below_table_size yt yp) as [Hp Ht]. fold D in Hp, Ht.
  destruct (labels_below_table_size yt (map pi yp)) as [Hp' Ht']. fold D' in Hp', Ht'.
  pose proof (table_size_relabel pi yt yp Hpi) as Hle. fold D D' in Hle.
  assert (forall p t, p < D -> cooc (map pi yp) yt (pi p) t = cooc yp yt p t) as R.
  { intros p t Hlt. apply (cooc_relabel pi D); [|done|done].
    intros x y Hx Hy. by apply (renaming_injective pi D). }
  destruct (renaming_inverse pi D Hpi) as (pi' & Hpi' & Hinv).
  assert (dominated (cooc yp yt) D (cooc (map pi yp) yt) D) as A1.
  { apply (dominated_relabel _ _ D pi'); [done|].
    intros q t Hq _. destruct (Hinv q Hq) as [Hlt Heq].
    rewrite <- (R (pi' q) t Hlt). by rewrite Heq. }
  assert (dominated (cooc (map pi yp) yt) D (cooc yp yt) D) as A2.
  { apply (dominated_relabel _ _ D pi); [done|].
    intros q t Hq _. symmetry. by apply R. }
  destruct (dominated_pad (cooc (map pi yp) yt) D' (D - D')) as [B1 B2].
  { intros. apply cooc_nonneg. }
  { intros i j Hij. by apply (cooc_outside D'). }
  replace (D' + (D - D')) with D in B1, B2 by lia.
  split; eapply dominated_trans; eauto.
Qed.

(** C8. For label vectors of one length, with [D] one more than the largest
    label of either, renaming the predicted labels by a permutation [pi] of
    [0 .. D-1] leaves the outcome of [cluster_acc] unchanged. *)
Theorem cluster_acc_relabel_invariant y_true y_pred pi :
  let D := Nat.max (max_list y_pred) (max_list y_true) + 1 in
  length y_pred = length y_true ->
  map pi (seq 0 D) ≡ₚ seq 0 D ->
  cluster_acc y_true (map pi y_pred) = cluster_acc y_true y_pred.
Proof.
  intros D Hlen Hpi.
  destruct y_pred as [|p yp]; [done|].
  set (y_pred := p :: yp) in *.
  destruct (cluster_acc_returns y_true y_pred) as (s & Hs & ->); [done|done|].
  destruct (cluster_acc_returns y_true (map pi y_pred)) as (s' & Hs' & ->);
    [by rewrite length_map|done|].
  destruct (relabel_same_problem pi y_true y_pred Hpi) as [H1 H2].
  rewrite length_map.
  by rewrite (optimal_scores_agree _ _ _ _ _ _ Hs' Hs H2 H1).
Qed.

(** C9. [cluster_acc] raises an assertion failure exactly when the two
    vectors differ in size; on vectors of one size that are not empty it
    returns the agreement collected by an optimal one-to-one assignment of
    the labels divided by the number of samples, a value between 0 and 1. *)
Theorem cluster_acc_outcomes y_true y_pred :
  (cluster_acc y_true y_pred = Raise AssertionError <->
   length y_pred <> length y_true) /\
  (length y_pred = length y_true -> y_pred <> [] ->
   exists sigma q,
     cluster_acc y_true y_pred = Ok q /\
     optimal (cooc y_pred y_true) (table_size y_true y_pred) sigma /\
     q = (inject_Z (score (cooc y_pred y_true) (table_size y_true y_pred) sigma)
          * 1 / inject_Z (Z.of_nat (length y_pred)))%Q /\
     (0 <= q)%Q /\ (q <= 1)%Q).
Proof.
  split.
  - split.
    + intros Hacc Hlen.
      destruct y_pred as [|p yp].
      * destruct y_true; [|done]. discriminate Hacc.
      * destruct (cluster_acc_returns y_true (p :: yp)) as (s & _ & Hok);
          [done|done|]. congruence.
    + intros Hlen. unfold cluster_acc.
      by apply Nat.eqb_neq in Hlen as ->.
  - intros Hlen Hne.
    destruct (cluster_acc_returns y_true y_pred Hlen Hne) as (sigma & Hopt & Hacc).
    eexists sigma, _. split; [exact Hacc|]. split; [done|]. split; [done|].
    pose proof (score_bounds y_pred y_true (table_size y_true y_pred) sigma)
      as [Hlo Hhi].
    rewrite length_zip_with, <- Hlen, Nat.min_id in Hhi.
    assert (0 < Z.of_nat (length y_pred))%Z as Hn by (destruct y_pred; simpl; [done|lia]).
    set (sc := score _ _ _) in *. set (n := Z.of_nat (length y_pred)) in *.
    assert (0 < inject_Z n)%Q as Hnq by (by rewrite (Zlt_Qlt 0 n) in Hn).
    assert (inject_Z 0 <= inject_Z sc)%Q as Hloq by (by rewrite <- Zle_Qle).
    assert (inject_Z sc <= inject_Z n)%Q as Hhiq by (by rewrite <- Zle_Qle).
    change (inject_Z 0) with 0%Q in Hloq.
    split.
    + apply Qle_shift_div_l; [done|]. lra.
    + apply Qle_shift_div_r; [done|]. lra.
Qed.

(** On two empty vectors, which have one size, [cluster_acc] does not return:
    the maximum of an empty vector raises. *)
Lemma cluster_acc_empty_raises :
  length (@nil nat) = length (@nil nat) /\
  cluster_acc [] [] = Raise ValueError /\
  ~ exists q, cluster_acc [] [] = Ok q.
Proof. split_and!; [done|done|]. intros [q Hq]. discriminate Hq. Qed.

(** A perfect clustering under other names scores 1, an uncorrelated one 0.5. *)
Example cluster_acc_permuted :
  exists q, cluster_acc [0; 0; 1; 1] [1; 1; 0; 0] = Ok q /\ (q == 1)%Q.
Proof. eexists. split; [vm_compute; reflexivity|reflexivity]. Qed.

Example cluster_acc_uncorrelated :
  exists q, cluster_acc [0; 0; 1; 1] [0; 1; 0; 1] = Ok q /\ (q == 1 # 2)%Q.
Proof. eexists. split; [vm_compute; reflexivity|reflexivity]. Qed.

(** * Rules and edge cases of the generators *)

Lemma labels_Forall PM PC p p' :
  length (ml_ind1 p) = length (ml_ind2 p) ->
  length (cl_ind1 p) = length (cl_ind2 p) ->
  labels PM PC p p' ->
  Forall PM (ml_pairs p) -> Forall PC (cl_pairs p) ->
  Forall PM (ml_pairs p') /\ Forall PC (cl_pairs p').
Proof.
  intros Lm Lc [->|(a & b & [[Hab ->]|[Hab ->]])] Hm Hc; [done| |];
    unfold ml_pairs, cl_pairs in *; simpl; rewrite zip_snoc by done;
    split; try done; apply Forall_app; split; try done;
    by apply Forall_singleton.
Qed.

Lemma while_labels {C : Type} valid PM PC cond
    (body : state C -> result (state C)) :
  (forall s s', body s = Ok s' -> grows valid (acc s) (acc s')) ->
  (forall s s', body s = Ok s' -> labels PM PC (acc s) (acc s')) ->
  forall fuel s s', acc s = no_pairs ->
    while fuel cond body s = Some (Ok s') ->
    Forall PM (ml_pairs (acc s')) /\ Forall PC (cl_pairs (acc s')).
Proof.
  intros Hg Hl fuel s s' Hs Hrun.
  apply (while_inv (fun s =>
    sound valid (acc s) /\
    Forall PM (ml_pairs (acc s)) /\ Forall PC (cl_pairs (acc s))))
    in Hrun as [(_ & Hm & Hc) _]; [done| |].
  - intros s1 s2 (Hs1 & Hm & Hc) _ Hb. split.
    + eapply grows_sound; eauto.
    + destruct Hs1. eapply labels_Forall; eauto.
  - rewrite Hs. split; [apply sound_no_pairs|]. split; constructor.
Qed.

Lemma shuffle_Forall PM PC p np out :
  shuffle p np = Ok out ->
  length (ml_ind1 p) = length (ml_ind2 p) ->
  length (cl_ind1 p) = length (cl_ind2 p) ->
  Forall PM (ml_pairs p) -> Forall PC (cl_pairs p) ->
  Forall PM (ml_pairs out) /\ Forall PC (cl_pairs out).
Proof.
  intros Hs Lm Lc Hm Hc.
  destruct (shuffle_spec _ _ _ Hs Lm Lc) as [[_ Pm] [_ Pc]].
  by rewrite Pm, Pc.
Qed.

Section RuleIterations.
Context `{NumLib}.

Lemma two_CDs_body_labels e th s s' :
  two_CDs_body e th s = Ok s' ->
  labels (same_quadrant e th) (opposite_quadrants e th) (acc s) (acc s').
Proof.
  destruct s as [p [num k] g], th as [[[lc1 lc2] mc1] mc2].
  unfold two_CDs_body. cbn [acc ctr py].
  cbv beta delta [mbind result_bind]. intros Hb.
  destruct (randint0 (shape1 e) g) as [[tmp1 g1]|] eqn:E1; [|done].
  destruct (randint0 (shape1 e) g1) as [[tmp2 g2]|] eqn:E2; [|done].
  cbv beta iota in Hb.
  labels_cases tmp1 tmp2;
    unfold same_quadrant, opposite_quadrants, high_low, low_high; simpl;
    naive_solver.
Qed.

Lemma one_CD_body_labels e th gene s s' :
  one_CD_body e th gene s = Ok s' ->
  labels (both_above e gene th) (above_and_below e gene th) (acc s) (acc s').
Proof.
  destruct s as [p [[num1 num2] k] g], th as [lc1 mc1].
  unfold one_CD_body. cbn [acc ctr py].
  cbv beta delta [mbind result_bind]. intros Hb.
  destruct (randint0 (shape1 e) g) as [[tmp1 g1]|] eqn:E1; [|done].
  destruct (randint0 (shape1 e) g1) as [[tmp2 g2]|] eqn:E2; [|done].
  cbv beta iota in Hb.
  labels_cases tmp1 tmp2;
    unfold both_above, above_and_below, above, below; simpl; naive_solver.
Qed.

Lemma clustering_body_labels e y_pred ccl s s' :
  clustering_body e y_pred ccl s = Ok s' ->
  labels (same_label y_pred)
    (fun ab => other_label y_pred ab /\ farther_than e ccl ab) (acc s) (acc s').
Proof.
  destruct s as [p num g]. unfold clustering_body. cbn [acc ctr py].
  cbv beta delta [mbind result_bind]. intros Hb.
  destruct (randint0 (shape0 e) g) as [[tmp1 g1]|] eqn:E1; [|done].
  destruct (randint0 (shape0 e) g1) as [[tmp2 g2]|] eqn:E2; [|done].
  cbv beta iota in Hb.
  labels_cases tmp1 tmp2; unfold same_label, other_label, farther_than; simpl.
  - left. split; [|done].
    match goal with Hq : (_ =? _) = true |- _ => apply Nat.eqb_eq in Hq as -> end.
    eauto.
  - right. split; [|done]. split; [|done].
    match goal with Hq : (?a =? ?b) = false, Hm : _ = Some ?a |- _ =>
      apply Nat.eqb_neq in Hq end.
    eauto 6.
Qed.

Lemma CD_markers_body_labels m c s s' :
  CD_markers_body m c s = Ok s' ->
  labels (table_says m c MustLink) (table_says m c CannotLink) (acc s) (acc s').
Proof.
  destruct s as [p num g]. unfold CD_markers_body. cbn [acc ctr py].
  cbv beta delta [mbind result_bind]. intros Hb.
  destruct (randint0 (shape1 m) g) as [[tmp1 g1]|] eqn:E1; [|done].
  destruct (randint0 (shape1 m) g1) as [[tmp2 g2]|] eqn:E2; [|done].
  cbv beta iota in Hb.
  repeat case_match; simplify_eq; cbn [acc];
    first [ by left | right; exists tmp1, tmp2 ];
    unfold table_says, CD_markers_table, first_match; cbn [fst snd];
    repeat match goal with
           | Hc : ?b = _ |- context [if ?b then _ else _] => rewrite Hc
           end;
    first [ by left | by right ].
Qed.
End RuleIterations.

Lemma filter_length_perm {A : Type} (P : A -> Prop) `{forall x, Decision (P x)}
    (l l' : list A) :
  l ≡ₚ l' -> length (filter P l) = length (filter P l').
Proof. intros Hp. by rewrite Hp. Qed.

Lemma mislabelled_add_ml y a b p :
  length (ml_ind1 p) = length (ml_ind2 p) ->
  mislabelled y (add_ml a b p)
  = (mislabelled y p + if decide (y !! a <> y !! b) then 1 else 0)%Z.
Proof.
  intros Hlen. unfold mislabelled, ml_pairs, cl_pairs. simpl.
  rewrite zip_snoc by done. rewrite filter_app, length_app.
  rewrite filter_cons, filter_nil. simpl.
  destruct (decide (y !! a <> y !! b)); simpl; lia.
Qed.

Lemma mislabelled_add_cl y a b p :
  length (cl_ind1 p) = length (cl_ind2 p) ->
  mislabelled y (add_cl a b p)
  = (mislabelled y p + if decide (y !! a = y !! b) then 1 else 0)%Z.
Proof.
  intros Hlen. unfold mislabelled, ml_pairs, cl_pairs. simpl.
  rewrite zip_snoc by done. rewrite filter_app, length_app.
  rewrite filter_cons, filter_nil. simpl.
  destruct (decide (y !! a = y !! b)); simpl; lia.
Qed.

Lemma shuffle_mislabelled y p np out :
  shuffle p np = Ok out ->
  length (ml_ind1 p) = length (ml_ind2 p) ->
  length (cl_ind1 p) = length (cl_ind2 p) ->
  mislabelled y out = mislabelled y p.
Proof.
  intros Hs Lm Lc.
  destruct (shuffle_spec _ _ _ Hs Lm Lc) as [[_ Pm] [_ Pc]].
  unfold mislabelled. by rewrite Pm, Pc.
Qed.

Section ErrorCount.
Context `{NumLib}.

Lemma random_pair_body_errors y pool num0 er s s' :
  random_pair_body y pool num0 er s = Ok s' ->
  length (ml_ind1 (acc s)) = length (ml_ind2 (acc s)) ->
  length (cl_ind1 (acc s)) = length (cl_ind2 (acc s)) ->
  ((ctr s').2 - (ctr s).2
   = mislabelled y (acc s') - mislabelled y (acc s))%Z.
Proof.
  destruct s as [p [num en] g]. unfold random_pair_body. cbn [acc ctr py].
  cbv beta delta [mbind result_bind]. intros Hb Lm Lc.
  destruct (choice pool g) as [[tmp1 g1]|] eqn:E1; [|done].
  destruct (choice pool g1) as [[tmp2 g2]|] eqn:E2; [|done].
  cbv beta iota in Hb.
  repeat case_match; simplify_eq; cbn [acc ctr fst snd];
    rewrite ?mislabelled_add_ml, ?mislabelled_add_cl by done;
    repeat match goal with
           | Hq : (_ =? _)%Z = true |- _ => apply Z.eqb_eq in Hq
           | Hq : (_ =? _)%Z = false |- _ => apply Z.eqb_neq in Hq
           end;
    repeat case_decide; try lia; congruence.
Qed.

Lemma random_pair_loop_errors fuel y pool num er g s :
  random_pair_loop fuel y pool num er g = Some (Ok s) ->
  (ctr s).2 = mislabelled y (acc s).
Proof.
  intros Hl.
  apply (while_inv (fun s =>
    sound (fun i => i ∈ pool) (acc s) /\ (ctr s).2 = mislabelled y (acc s)))
    in Hl as [[_ He] _]; [done| |].
  - intros s1 s2 [Hs He] _ Hb. split.
    + eapply grows_sound; [exact Hs|]. by eapply random_pair_body_grows.
    + destruct Hs. pose proof (random_pair_body_errors _ _ _ _ _ _ Hb) as Hd.
      lia.
  - split; [apply sound_no_pairs|done].
Qed.

Lemma random_pair_body_faithful y pool num0 er s s' :
  Fle (Fmul er (Fint num0)) (Fint 0) = true ->
  (ctr s).2 = 0%Z ->
  random_pair_body y pool num0 er s = Ok s' ->
  (ctr s').2 = 0%Z /\
  labels (same_label y) (other_label y) (acc s) (acc s').
Proof.
  destruct s as [p [num en] g]. unfold random_pair_body. cbn [acc ctr py].
  cbv beta delta [mbind result_bind]. intros Hbudget Hen Hb.
  cbn [snd] in Hen. subst en.
  destruct (choice pool g) as [[tmp1 g1]|] eqn:E1; [|done].
  destruct (choice pool g1) as [[tmp2 g2]|] eqn:E2; [|done].
  cbv beta iota in Hb. rewrite Hbudget in Hb.
  repeat case_match; simplify_eq; cbn [acc ctr fst snd]; (split; [done|]);
    first [ by left | right; exists tmp1, tmp2 ];
    repeat match goal with
           | Hq : (_ =? _)%Z = true |- _ => apply Z.eqb_eq in Hq as ->
           | Hq : (_ =? _)%Z = false |- _ => apply Z.eqb_neq in Hq
           end;
    unfold same_label, other_label; simpl; [left|right]; split; eauto.
Qed.

(** A pair is kept only after both [y[tmp1]] and [y[tmp2]] were read. *)
Lemma random_pair_body_labelled y pool num0 er s s' :
  random_pair_body y pool num0 er s = Ok s' ->
  labels (labelled y) (labelled y) (acc s) (acc s').
Proof.
  destruct s as [p [num en] g]. unfold random_pair_body. cbn [acc ctr py].
  cbv beta delta [mbind result_bind]. intros Hb.
  destruct (choice pool g) as [[tmp1 g1]|] eqn:E1; [|done].
  destruct (choice pool g1) as [[tmp2 g2]|] eqn:E2; [|done].
  cbv beta iota in Hb.
  repeat case_match; simplify_eq; cbn [acc];
    first [ by left | right; exists tmp1, tmp2 ];
    repeat match goal with
           | Hy : _ !! _ = Some _ |- _ => apply lookup_lt_Some in Hy
           end;
    unfold labelled; simpl;
    first [ left; split; [split; assumption|reflexivity]
          | right; split; [split; assumption|reflexivity] ].
Qed.

End ErrorCount.

Lemma while_skip {S : Type} fuel cond (body : S -> result S) s :
  cond s = false -> while fuel cond body s = Some (Ok s).
Proof. intros Hc. destruct fuel; simpl; by rewrite Hc. Qed.

Lemma while_raise {S : Type} fuel cond (body : S -> result S) s e :
  cond s = true -> body s = Raise e ->
  while (Datatypes.S fuel) cond body s = Some (Raise e).
Proof. intros Hc Hb. simpl. by rewrite Hc, Hb. Qed.

Lemma shuffle_no_pairs np : shuffle no_pairs np = Ok no_pairs.
Proof. done. Qed.

Lemma Qpos_half num : Qpos (inject_Z num / 2) = (0 <? num)%Z.
Proof.
  assert (2 * (inject_Z num / 2) == inject_Z num)%Q as Hhalf by field.
  destruct (Z.ltb_spec 0 num) as [Hlt|Hle].
  - apply Qpos_spec. rewrite (Zlt_Qlt 0 num) in Hlt.
    change (inject_Z 0) with 0%Q in Hlt.
    set (x := (inject_Z num / 2)%Q) in *. clearbody x. lra.
  - apply not_true_is_false. intros Hp%Qpos_spec.
    rewrite (Zle_Qle num 0) in Hle. change (inject_Z 0) with 0%Q in Hle.
    set (x := (inject_Z num / 2)%Q) in *. clearbody x. lra.
Qed.

Section RuleTheorems.
Context `{NumLib}.

(** X6. The [error_num] that [generate_random_pair] returns is the number of
    returned pairs that contradict the labels: must-link pairs of two labels
    and cannot-link pairs of one label. *)
Theorem error_num_counts_contradicted_pairs fuel y pool num er g np out en :
  generate_random_pair fuel y pool num er g np = Some (Ok (out, en)) ->
  en = mislabelled y out.
Proof.
  intros (s & Hl & Hk)%and_then_Ok.
  destruct (shuffle (acc s) np) as [p'|] eqn:Hs; [|done].
  cbn in Hk. simplify_eq.
  destruct (random_pair_loop_sound _ _ _ _ _ _ _ Hl) as [Lm Lc _ _ _ _ _].
  rewrite (shuffle_mislabelled _ _ _ _ Hs Lm Lc).
  by eapply random_pair_loop_errors.
Qed.

(** X7. When the error budget [error_rate * num] is already reached at zero
    errors, [generate_random_pair] returns [error_num = 0], must-link pairs
    of one label only and cannot-link pairs of two labels only. *)
Theorem no_error_budget_follows_labels fuel y pool num er g np out en :
  Fle (Fmul er (Fint num)) (Fint 0) = true ->
  generate_random_pair fuel y pool num er g np = Some (Ok (out, en)) ->
  en = 0%Z /\
  Forall (same_label y) (ml_pairs out) /\ Forall (other_label y) (cl_pairs out).
Proof.
  intros Hbudget (s & Hl & Hk)%and_then_Ok.
  destruct (shuffle (acc s) np) as [p'|] eqn:Hs; [|done].
  cbn in Hk. simplify_eq.
  destruct (random_pair_loop_sound _ _ _ _ _ _ _ Hl) as [Lm Lc _ _ _ _ _].
  apply (while_inv (fun s =>
    sound (fun i => i ∈ pool) (acc s) /\ (ctr s).2 = 0%Z /\
    Forall (same_label y) (ml_pairs (acc s)) /\
    Forall (other_label y) (cl_pairs (acc s))))
    in Hl as [(_ & He & Hm & Hc) _].
  - split; [done|]. by eapply shuffle_Forall.
  - intros s1 s2 (Hs1 & He & Hm & Hc) _ Hb.
    destruct (random_pair_body_faithful _ _ _ _ _ _ Hbudget He Hb) as [He' Hlab].
    split; [eapply grows_sound; [exact Hs1|by eapply random_pair_body_grows]|].
    split; [done|]. destruct Hs1. by eapply labels_Forall.
  - split; [apply sound_no_pairs|]. split; [done|]. split; constructor.
Qed.

(** X18. Whatever the candidate pool [ind] holds, both cells of every pair
    that [generate_random_pair] returns are positions of the label vector
    [y]. *)
Theorem returned_pairs_index_the_labels fuel y pool num er g np out en :
  generate_random_pair fuel y pool num er g np = Some (Ok (out, en)) ->
  Forall (labelled y) (ml_pairs out) /\ Forall (labelled y) (cl_pairs out).
Proof.
  intros (s & Hl & Hk)%and_then_Ok.
  destruct (shuffle (acc s) np) as [p'|] eqn:Hs; [|done].
  cbn in Hk. simplify_eq.
  destruct (random_pair_loop_sound _ _ _ _ _ _ _ Hl) as [Lm Lc _ _ _ _ _].
  eapply (while_labels (fun i => i ∈ pool)) in Hl as [Hm Hc]; try done.
  - by eapply shuffle_Forall.
  - intros. by eapply random_pair_body_grows.
  - intros. by eapply random_pair_body_labelled.
Qed.

(** X8. Every must-link pair returned by
    [generate_random_pair_from_embedding_clustering] lies in one k-means
    cluster; every cannot-link pair joins two clusters and two rows farther
    apart than the [CL] cutoff. *)
Theorem clustering_pairs_follow_clusters fuel e num n_clusters ML CL g np out :
  generate_random_pair_from_embedding_clustering fuel e num n_clusters ML CL g np
    = Some (Ok out) ->
  exists y_pred cut,
    kmeans_labels n_clusters (rows e) = Ok y_pred /\
    distance_cutoffs e ML CL = Ok cut /\
    Forall (same_label y_pred) (ml_pairs out) /\
    Forall (fun ab => other_label y_pred ab /\ farther_than e cut.2 ab)
      (cl_pairs out).
Proof.
  intros (s & Hl & Hs)%and_then_Ok.
  destruct (clustering_loop_sound _ _ _ _ _ _ _ _ Hl) as [Lm Lc _ _ _ _ _].
  unfold clustering_loop, clustering_setup in Hl.
  destruct (kmeans_labels n_clusters (rows e)) as [y_pred|]; [|done].
  cbn in Hl. destruct (distance_cutoffs e ML CL) as [cut|]; [|done].
  cbn in Hl. exists y_pred, cut. split; [done|]. split; [done|].
  eapply shuffle_Forall; eauto;
    eapply (while_labels (fun i => i < shape0 e)) in Hl; try done;
    try apply Hl; intros;
    first [by eapply clustering_body_grows | by eapply clustering_body_labels].
Qed.

(** X9. Every must-link pair returned by [generate_random_pair_from_two_CDs]
    has both cells in one quadrant (high in row 0 and low in row 1, or the
    reverse); every cannot-link pair has one cell in each of the two. *)
Theorem two_CDs_pairs_follow_quadrants fuel e num LC HC g np out :
  generate_random_pair_from_two_CDs fuel e num LC HC g np = Some (Ok out) ->
  exists th,
    two_CDs_thresholds e LC HC = Ok th /\
    Forall (same_quadrant e th) (ml_pairs out) /\
    Forall (opposite_quadrants e th) (cl_pairs out).
Proof.
  intros (s & Hl & Hs)%and_then_Ok.
  destruct (two_CDs_loop_sound _ _ _ _ _ _ _ _ Hl) as [Lm Lc _ _ _ _ _].
  unfold two_CDs_loop in Hl.
  destruct (two_CDs_thresholds e LC HC) as [th|]; [|done].
  cbn in Hl. exists th. split; [done|].
  eapply (while_labels (fun i => i < shape1 e)) in Hl as [Hm Hc]; try done.
  - by eapply shuffle_Forall.
  - intros. by eapply two_CDs_body_grows.
  - intros. by eapply two_CDs_body_labels.
Qed.

(** X10. Every must-link pair returned by
    [generate_random_pair_from_one_CD] has both cells above the high
    threshold of the gene; every cannot-link pair has one cell above it and
    the other at or below the low threshold. *)
Theorem one_CD_pairs_follow_levels fuel e num LC HC gene g np out :
  generate_random_pair_from_one_CD fuel e num LC HC gene g np = Some (Ok out) ->
  exists th,
    one_CD_thresholds e LC HC gene = Ok th /\
    Forall (both_above e gene th) (ml_pairs out) /\
    Forall (above_and_below e gene th) (cl_pairs out).
Proof.
  intros (s & Hl & Hs)%and_then_Ok.
  destruct (one_CD_loop_sound _ _ _ _ _ _ _ _ _ Hl) as [Lm Lc _ _ _ _ _].
  unfold one_CD_loop in Hl.
  destruct (one_CD_thresholds e LC HC gene) as [th|]; [|done].
  cbn in Hl. exists th. split; [done|].
  eapply (while_labels (fun i => i < shape1 e)) in Hl as [Hm Hc]; try done.
  - by eapply shuffle_Forall.
  - intros. by eapply one_CD_body_grows.
  - intros. by eapply one_CD_body_labels.
Qed.

(** X11. Every must-link pair returned by
    [generate_random_pair_from_CD_markers] is one the marker table decides as
    must-link, every cannot-link pair one it decides as cannot-link. *)
Theorem CD_markers_pairs_follow_table fuel m num low1 high1 low2 high2 g np out :
  generate_random_pair_from_CD_markers fuel m num low1 high1 low2 high2 g np
    = Some (Ok out) ->
  exists c,
    CD_markers_cutoffs m low1 high1 low2 high2 = Ok c /\
    Forall (table_says m c MustLink) (ml_pairs out) /\
    Forall (table_says m c CannotLink) (cl_pairs out).
Proof.
  intros (s & Hl & Hs)%and_then_Ok.
  destruct (CD_markers_loop_sound _ _ _ _ _ _ _ _ _ Hl) as [Lm Lc _ _ _ _ _].
  unfold CD_markers_loop in Hl.
  destruct (CD_markers_cutoffs m low1 high1 low2 high2) as [c|]; [|done].
  cbn in Hl. exists c. split; [done|].
  eapply (while_labels (fun i => i < shape1 m)) in Hl as [Hm Hc]; try done.
  - by eapply shuffle_Forall.
  - intros. by eapply CD_markers_body_grows.
  - intros. by eapply CD_markers_body_labels.
Qed.

(** X4. [generate_random_pair_from_one_CD] fills each of its two lists up
    to half the request rounded up and no further, and when its loop ends
    below the cap each list holds at least half the request. *)
Theorem one_CD_lists_fill_their_budgets cap fuel e num LC HC gene g s :
  (0 <= num)%Z ->
  one_CD_loop cap fuel e num LC HC gene g = Some (Ok s) ->
  (2 * Z.of_nat (length (ml_pairs (acc s))) <= num + 1 /\
   2 * Z.of_nat (length (cl_pairs (acc s))) <= num + 1)%Z /\
  (((ctr s).2 < cap)%Z ->
   (num <= 2 * Z.of_nat (length (ml_pairs (acc s))) /\
    num <= 2 * Z.of_nat (length (cl_pairs (acc s))))%Z).
Proof.
  intros Hnum Hl.
  destruct (one_CD_loop_sound _ _ _ _ _ _ _ _ _ Hl) as [Lm Lc _ _ _ _ _].
  unfold ml_pairs, cl_pairs. rewrite !length_zip_with, <- Lm, <- Lc, !Nat.min_id.
  by eapply one_CD_loop_count.
Qed.

(** X12. Asked for no constraint ([num <= 0]), [generate_random_pair]
    returns four empty arrays and no error without a single draw, whatever
    the pool; no generator returns a pair in that case. *)
Theorem nothing_requested_nothing_returned :
  (forall fuel y pool num er g np, (num <= 0)%Z ->
     generate_random_pair fuel y pool num er g np = Some (Ok (no_pairs, 0%Z))) /\
  (forall c fuel g np out, (requested c <= 0)%Z ->
     run c fuel g np = Some (Ok out) -> out = no_pairs).
Proof.
  split.
  - intros fuel y pool num er g np Hnum. unfold generate_random_pair, random_pair_loop.
    rewrite while_skip; [done|]. by apply Z.ltb_ge.
  - intros c fuel g np out Hnum (p & Hp & Hs)%run_sample.
    assert (p = no_pairs) as ->; [|by rewrite shuffle_no_pairs in Hs; simplify_eq].
    destruct c; cbn [requested sample] in *;
      apply and_then_Ok in Hp as (s & Hl & [= <-]).
    + unfold random_pair_loop in Hl. rewrite while_skip in Hl by (by apply Z.ltb_ge).
      by simplify_eq.
    + unfold proteins_loop in Hl. destruct (distance_cutoffs _ _ _); [|done].
      cbn in Hl. rewrite while_skip in Hl by (by apply Z.ltb_ge). by simplify_eq.
    + unfold two_CDs_loop in Hl. destruct (two_CDs_thresholds _ _ _); [|done].
      cbn in Hl. rewrite while_skip in Hl; [by simplify_eq|].
      unfold two_CDs_cond. simpl. apply andb_false_iff. left. by apply Z.ltb_ge.
    + unfold one_CD_loop in Hl. destruct (one_CD_thresholds _ _ _ _); [|done].
      cbn in Hl. rewrite while_skip in Hl; [by simplify_eq|].
      unfold one_CD_cond. simpl. rewrite Qpos_half.
      apply Z.ltb_ge in Hnum. by rewrite Hnum.
    + unfold CD_markers_loop in Hl. destruct (CD_markers_cutoffs _ _ _ _ _); [|done].
      cbn in Hl. rewrite while_skip in Hl by (by apply Z.ltb_ge). by simplify_eq.
    + unfold clustering_loop in Hl. destruct (clustering_setup _ _ _ _); [|done].
      cbn in Hl. rewrite while_skip in Hl by (by apply Z.ltb_ge). by simplify_eq.
Qed.

End RuleTheorems.

Section EdgeCases.
Context `{NumLib}.

Lemma and_then_Raise {S A : Type} (o : option (result S)) (k : S -> result A) e :
  o = Some (Raise e) -> and_then o k = Some (Raise e).
Proof. by intros ->. Qed.

(** X13. Asked for at least one constraint on data without a sample (an
    empty pool, no row, or no column), every generator raises: before its
    loop, or at the first draw. *)
Theorem no_samples_no_result c fuel g np :
  (forall i, ~ valid_index c i) -> (0 < requested c)%Z ->
  exists e, run c (S fuel) g np = Some (Raise e).
Proof.
  intros Hnone Hnum.
  destruct c; cbn [valid_index requested run] in *.
  - assert (label_cell_indx = []) as ->.
    { destruct label_cell_indx as [|i l]; [done|]. destruct (Hnone i). left. }
    exists IndexError. unfold generate_random_pair, random_pair_loop.
    rewrite (while_raise _ _ _ _ IndexError); [done| |done].
    by apply Z.ltb_lt.
  - assert (shape0 latent_embedding = 0) as Hz.
    { destruct (shape0 latent_embedding) as [|n] eqn:E; [done|].
      destruct (Hnone 0). lia. }
    unfold generate_random_pair_from_proteins, proteins_loop.
    destruct (distance_cutoffs _ _ _) as [cut|e0]; [|by exists e0].
    exists ValueError. cbn [after].
    rewrite (while_raise _ _ _ _ ValueError); [done|by apply Z.ltb_lt|].
    unfold proteins_body. cbn [py]. by rewrite Hz.
  - assert (shape1 latent_embedding = 0) as Hz.
    { destruct (shape1 latent_embedding) as [|n] eqn:E; [done|].
      destruct (Hnone 0). lia. }
    unfold generate_random_pair_from_two_CDs, two_CDs_loop.
    destruct (two_CDs_thresholds _ _ _) as [[[[lc1 lc2] mc1] mc2]|e0]; [|by exists e0].
    exists ValueError. cbn [after].
    rewrite (while_raise _ _ _ _ ValueError); [done| |].
    + unfold two_CDs_cond. cbn [ctr fst snd]. apply andb_true_iff.
      split; [by apply Z.ltb_lt|done].
    + unfold two_CDs_body. cbn [py ctr]. by rewrite Hz.
  - assert (shape1 latent_embedding = 0) as Hz.
    { destruct (shape1 latent_embedding) as [|n] eqn:E; [done|].
      destruct (Hnone 0). lia. }
    unfold generate_random_pair_from_one_CD, one_CD_loop.
    destruct (one_CD_thresholds _ _ _ _) as [[lc1 mc1]|e0]; [|by exists e0].
    exists ValueError. cbn [after].
    rewrite (while_raise _ _ _ _ ValueError); [done| |].
    + unfold one_CD_cond. cbn [ctr]. rewrite Qpos_half.
      apply Z.ltb_lt in Hnum. by rewrite Hnum.
    + unfold one_CD_body. cbn [py ctr]. by rewrite Hz.
  - assert (shape1 markers = 0) as Hz.
    { destruct (shape1 markers) as [|n] eqn:E; [done|].
      destruct (Hnone 0). lia. }
    unfold generate_random_pair_from_CD_markers, CD_markers_loop.
    destruct (CD_markers_cutoffs _ _ _ _ _) as [c|e0]; [|by exists e0].
    exists ValueError. cbn [after].
    rewrite (while_raise _ _ _ _ ValueError); [done|by apply Z.ltb_lt|].
    unfold CD_markers_body. cbn [py]. by rewrite Hz.
  - assert (shape0 latent_embedding = 0) as Hz.
    { destruct (shape0 latent_embedding) as [|n] eqn:E; [done|].
      destruct (Hnone 0). lia. }
    unfold generate_random_pair_from_embedding_clustering, clustering_loop.
    destruct (clustering_setup _ _ _ _) as [su|e0]; [|by exists e0].
    exists ValueError. cbn [after].
    rewrite (while_raise _ _ _ _ ValueError); [done|by apply Z.ltb_lt|].
    unfold clustering_body. cbn [py]. by rewrite Hz.
Qed.

Lemma row_missing e i : shape0 e <= i -> row e i = Raise IndexError.
Proof. intros Hi. unfold row. by apply Nat.ltb_ge in Hi as ->. Qed.

Lemma row_present e i : i < shape0 e -> exists r, row e i = Ok r.
Proof. intros Hi. unfold row. apply Nat.ltb_lt in Hi as ->. by eexists. Qed.

(** X14. The column-oriented generators raise before any draw when a row
    they read is missing: fewer than two rows for
    [generate_random_pair_from_two_CDs], no row [gene] for
    [generate_random_pair_from_one_CD] (an index error), fewer than four rows
    for [generate_random_pair_from_CD_markers]. *)
Theorem missing_rows_raise fuel e num g np :
  (forall LC HC, shape0 e < 2 ->
     exists err, generate_random_pair_from_two_CDs fuel e num LC HC g np
                 = Some (Raise err)) /\
  (forall LC HC gene, shape0 e <= gene ->
     generate_random_pair_from_one_CD fuel e num LC HC gene g np
     = Some (Raise IndexError)) /\
  (forall low1 high1 low2 high2, shape0 e < 4 ->
     exists err,
       generate_random_pair_from_CD_markers fuel e num low1 high1 low2 high2 g np
       = Some (Raise err)).
Proof.
  split_and!.
  - intros LC HC Hrows.
    assert (exists err, two_CDs_thresholds e LC HC = Raise err) as [err Herr].
    { unfold two_CDs_thresholds. cbv beta delta [mbind result_bind].
      destruct (row e 0) as [r0|]; [|by eexists].
      destruct (np_percentile r0 LC); [|by eexists].
      rewrite row_missing by lia. by eexists. }
    exists err. unfold generate_random_pair_from_two_CDs, two_CDs_loop.
    by rewrite Herr.
  - intros LC HC gene Hrows.
    unfold generate_random_pair_from_one_CD, one_CD_loop, one_CD_thresholds.
    by rewrite row_missing.
  - intros low1 high1 low2 high2 Hrows.
    assert (exists err, CD_markers_cutoffs e low1 high1 low2 high2 = Raise err)
      as [err Herr].
    { unfold CD_markers_cutoffs. cbv beta delta [mbind result_bind].
      destruct (decide (shape0 e <= 0)); [rewrite (row_missing e 0) by lia; by eexists|].
      destruct (row_present e 0) as [m0 ->]; [lia|].
      destruct (np_quantile m0 low1); [|by eexists].
      destruct (np_quantile m0 high1); [|by eexists].
      destruct (decide (shape0 e <= 1)); [rewrite (row_missing e 1) by lia; by eexists|].
      destruct (row_present e 1) as [m1 ->]; [lia|].
      destruct (np_quantile m1 low1); [|by eexists].
      destruct (np_quantile m1 high1); [|by eexists].
      destruct (np_quantile m0 low2); [|by eexists].
      destruct (np_quantile m0 high2); [|by eexists].
      destruct (np_quantile m1 low2); [|by eexists].
      destruct (np_quantile m1 high2); [|by eexists].
      destruct (decide (shape0 e <= 2)); [rewrite (row_missing e 2) by lia; by eexists|].
      destruct (row_present e 2) as [m2 ->]; [lia|].
      destruct (np_quantile m2 low2); [|by eexists].
      destruct (np_quantile m2 high2); [|by eexists].
      rewrite (row_missing e 3) by lia. by eexists. }
    exists err. unfold generate_random_pair_from_CD_markers, CD_markers_loop.
    by rewrite Herr.
Qed.

End EdgeCases.

(** ** Exchanging the two label vectors *)

Lemma cooc_swap yp yt p t : cooc yt yp t p = cooc yp yt p t.
Proof.
  unfold cooc. f_equal. revert yt.
  induction yp as [|x yp IH]; intros [|y yt]; simpl; try done.
  rewrite !filter_cons.
  destruct (decide ((x, y) = (p, t))) as [[= -> ->]|Hne].
  - rewrite decide_True by done. simpl. by rewrite IH.
  - rewrite decide_False by congruence. apply IH.
Qed.

Lemma table_size_swap yt yp : table_size yt yp = table_size yp yt.
Proof. unfold table_size. by rewrite Nat.max_comm. Qed.

Lemma dominated_transpose c D : dominated c D (fun i j => c j i) D.
Proof.
  intros sigma Hs. pose proof (perm_seq_length _ _ Hs) as Hlen.
  set (rho := fun i => nth i sigma 0).
  assert (map rho (seq 0 D) = sigma) as Hmap.
  { unfold rho. rewrite <- Hlen. apply map_nth_seq_id. }
  assert (map rho (seq 0 D) ≡ₚ seq 0 D) as Hrho by (by rewrite Hmap).
  destruct (renaming_inverse rho D Hrho) as (rho' & Hrho' & Hinv).
  exists (map rho' (seq 0 D)). split; [done|].
  apply Z.eq_le_incl. unfold score.
  rewrite <- (Zsum_perm _ _
    (Permutation_map (fun j => c j (nth j sigma 0)) Hrho')).
  rewrite map_map. apply Zsum_map_ext.
  intros i Hi%list_elem_of_In%in_seq.
  rewrite nth_map_seq by lia.
  destruct (Hinv i) as [_ Heq]; [lia|]. unfold rho in Heq. by rewrite Heq.
Qed.

Lemma dominated_ext c1 c1' D1 c2 c2' D2 :
  (forall i j, i < D1 -> j < D1 -> c1 i j = c1' i j) ->
  (forall i j, i < D2 -> j < D2 -> c2 i j = c2' i j) ->
  dominated c1 D1 c2 D2 -> dominated c1' D1 c2' D2.
Proof.
  intros H1 H2 Hd sigma Hs. destruct (Hd sigma Hs) as (sigma' & Hs' & Hle).
  exists sigma'. split; [done|].
  by rewrite <- (score_ext c1 c1' D1 sigma), <- (score_ext c2 c2' D2 sigma').
Qed.

(** X15. [cluster_acc] gives the same outcome when the true and the
    predicted labels are exchanged. *)
Theorem cluster_acc_symmetric y_true y_pred :
  cluster_acc y_true y_pred = cluster_acc y_pred y_true.
Proof.
  destruct (decide (length y_pred = length y_true)) as [Hlen|Hlen].
  - destruct y_pred as [|p yp].
    { by destruct y_true. }
    destruct y_true as [|t yt]; [done|].
    set (y_pred := p :: yp) in *. set (y_true := t :: yt) in *.
    destruct (cluster_acc_returns y_true y_pred) as (s & Hs & ->); [done|done|].
    destruct (cluster_acc_returns y_pred y_true) as (s' & Hs' & ->); [done|done|].
    rewrite Hlen.
    rewrite (table_size_swap y_pred y_true) in *.
    set (D := table_size y_true y_pred) in *.
    enough (score (cooc y_pred y_true) D s = score (cooc y_true y_pred) D s')
      as -> by done.
    apply (optimal_scores_agree _ _ _ _ _ _ Hs Hs').
    + eapply dominated_ext; [done| |apply dominated_transpose].
      intros i j _ _. simpl. symmetry. apply cooc_swap.
    + eapply dominated_ext; [| done |apply dominated_transpose].
      intros i j _ _. simpl. apply cooc_swap.
  - unfold cluster_acc.
    assert (length y_true <> length y_pred) as Hlen' by congruence.
    apply Nat.eqb_neq in Hlen, Hlen'. by rewrite Hlen, Hlen'.
Qed.

(** ** The agreement of the labels as they are *)

Lemma Zsum_map_add {A : Type} (f g : A -> Z) l :
  Zsum (map (fun x => f x + g x)%Z l) = (Zsum (map f l) + Zsum (map g l))%Z.
Proof. unfold Zsum. induction l as [|x l IH]; simpl; lia. Qed.

Lemma diagonal_hit D (x : nat * nat) :
  Zsum (map (fun i => if decide (x = (i, i)) then 1 else 0)%Z (seq 0 D))
  = if decide (x.1 = x.2 /\ x.1 < D) then 1%Z else 0%Z.
Proof.
  destruct x as [a b]. simpl. induction D as [|D IH].
  - simpl. rewrite decide_False; [done|]. intros [_ Hlt]. lia.
  - rewrite seq_S, map_app, Zsum_app, IH. unfold Zsum. simpl.
    repeat case_decide; simplify_eq; try lia.
    match goal with Hab : _ /\ _ |- _ => destruct Hab as [-> Hlt] end.
    destruct (decide (b < D)) as [Hb|Hb]; [by destruct H|].
    assert (b = D) as -> by lia. done.
Qed.

Lemma diagonal_score D yp yt :
  Forall (fun p => p < D) yp ->
  score (cooc yp yt) D (seq 0 D) = agreements yp yt.
Proof.
  intros Hp. unfold score, agreements, cooc.
  transitivity (Zsum (map (fun i =>
    Z.of_nat (length (filter (fun pt => pt = (i, i)) (zip yp yt)))) (seq 0 D))).
  { apply Zsum_map_ext. intros i Hi%list_elem_of_In%in_seq.
    rewrite seq_nth by lia. done. }
  assert (Forall (fun pt : nat * nat => pt.1 < D) (zip yp yt)) as Hz.
  { apply Forall_forall. intros [a b] Hin%elem_of_zip_l.
    rewrite Forall_forall in Hp. by apply Hp. }
  induction Hz as [|x l Hx Hz IH]; simpl.
  - unfold Zsum. induction (seq 0 D); simpl; [done|lia].
  - rewrite (filter_cons (fun pt => pt.1 = pt.2)).
    transitivity (Zsum (map (fun i =>
      (Z.of_nat (length (filter (fun pt => pt = (i, i)) l))
       + if decide (x = (i, i)) then 1 else 0)%Z) (seq 0 D))).
    { apply Zsum_map_ext. intros i _. rewrite filter_cons.
      destruct (decide (x = (i, i))); simpl; lia. }
    rewrite Zsum_map_add, IH, diagonal_hit.
    repeat case_decide; simpl; try lia; naive_solver.
Qed.

(** X16. On vectors of one size that are not empty, [cluster_acc] is at
    least the share of samples whose predicted label equals their true
    label. *)
Theorem cluster_acc_at_least_agreement y_true y_pred :
  length y_pred = length y_true -> y_pred <> [] ->
  exists q,
    cluster_acc y_true y_pred = Ok q /\
    (inject_Z (agreements y_pred y_true) / inject_Z (Z.of_nat (length y_pred))
     <= q)%Q.
Proof.
  intros Hlen Hne.
  destruct (cluster_acc_returns y_true y_pred Hlen Hne) as (sigma & [Hp Hopt] & ->).
  eexists. split; [done|].
  destruct (labels_below_table_size y_true y_pred) as [Hpred _].
  specialize (Hopt (seq 0 (table_size y_true y_pred)) (reflexivity _)).
  rewrite diagonal_score in Hopt by done.
  set (sc := score _ _ _) in *. set (a := agreements _ _) in *.
  assert (0 < Z.of_nat (length y_pred))%Z as Hn
    by (destruct y_pred; simpl; [done|lia]).
  set (n := Z.of_nat (length y_pred)) in *.
  assert (0 < inject_Z n)%Q as Hnq by (by rewrite (Zlt_Qlt 0 n) in Hn).
  assert (inject_Z a <= inject_Z sc)%Q as Hle by (by rewrite <- Zle_Qle).
  unfold Qdiv. apply Qmult_le_compat_r; [lra|].
  apply Qinv_le_0_compat. lra.
Qed.

Lemma agreements_self y : agreements y y = Z.of_nat (length y).
Proof.
  unfold agreements. f_equal. induction y as [|x y IH]; simpl; [done|].
  rewrite filter_cons. simpl. rewrite decide_True by done. simpl. by rewrite IH.
Qed.

(** X17. A prediction that is the true labelling under a renaming of the
    labels scores exactly 1. *)
Theorem cluster_acc_perfect_under_renaming y_true pi :
  y_true <> [] ->
  map pi (seq 0 (max_list y_true + 1)) ≡ₚ seq 0 (max_list y_true + 1) ->
  exists q, cluster_acc y_true (map pi y_true) = Ok q /\ (q == 1)%Q.
Proof.
  intros Hne Hpi.
  assert (table_size y_true y_true = max_list y_true + 1) as HD
    by (unfold table_size; by rewrite Nat.max_id).
  rewrite <- HD in Hpi.
  destruct (cluster_acc_returns y_true (map pi y_true)) as (s' & Hs' & ->);
    [by rewrite length_map|by destruct y_true|].
  destruct (cluster_acc_returns y_true y_true) as (s & Hs & _); [done|done|].
  destruct (relabel_same_problem pi y_true y_true Hpi) as [H1 H2].
  rewrite (optimal_scores_agree _ _ _ _ _ _ Hs' Hs H2 H1).
  eexists. split; [done|].
  assert (score (cooc y_true y_true) (table_size y_true y_true) s
          = Z.of_nat (length y_true)) as ->.
  { destruct Hs as [Hp Hopt].
    destruct (labels_below_table_size y_true y_true) as [Hlt _].
    specialize (Hopt (seq 0 (table_size y_true y_true)) (reflexivity _)).
    rewrite diagonal_score, agreements_self in Hopt by done.
    pose proof (score_bounds y_true y_true (table_size y_true y_true) s) as [_ Hhi].
    rewrite length_zip_with, Nat.min_id in Hhi. lia. }
  rewrite length_map.
  assert (0 < Z.of_nat (length y_true))%Z as Hn
    by (destruct y_true; simpl; [done|lia]).
  set (n := Z.of_nat (length y_true)) in *.
  assert (0 < inject_Z n)%Q as Hnq by (by rewrite (Zlt_Qlt 0 n) in Hn).
  field. lra.
Qed.

(** ** The largest cell of the contingency table *)

Lemma Zsum_map_term {A : Type} (f : A -> Z) l x :
  (forall y, y ∈ l -> 0 <= f y)%Z -> x ∈ l -> (f x <= Zsum (map f l))%Z.
Proof.
  intros Hpos Hx. induction l as [|y l IH]; [by apply elem_of_nil in Hx|].
  assert (0 <= Zsum (map f l))%Z as Hrest.
  { apply Zsum_nonneg, Forall_forall. intros z (w & -> & Hw)%list_elem_of_fmap.
    apply Hpos. by right. }
  assert (0 <= f y)%Z by (apply Hpos; left).
  unfold Zsum in *. simpl.
  apply elem_of_cons in Hx as [->|Hx]; [lia|].
  assert (forall z, z ∈ l -> 0 <= f z)%Z as Hl by (intros z Hz; apply Hpos; by right).
  specialize (IH Hl Hx). lia.
Qed.

(** The assignment that exchanges [p] and [t] and keeps the rest. *)
Lemma exchange_is_assignment D p t :
  p < D -> t < D ->
  map (fun i => if i =? p then t else if i =? t then p else i) (seq 0 D)
  ≡ₚ seq 0 D.
Proof.
  intros Hp Ht. apply perm_of_bounded.
  - apply NoDup_fmap_2_strong; [|apply NoDup_seq].
    intros x y _ _.
    destruct (Nat.eqb_spec x p), (Nat.eqb_spec x t),
      (Nat.eqb_spec y p), (Nat.eqb_spec y t); intros; subst; congruence.
  - by rewrite length_map, length_seq.
  - apply Forall_forall.
    intros y (x & -> & Hx%list_elem_of_In%in_seq)%list_elem_of_fmap.
    destruct (Nat.eqb_spec x p), (Nat.eqb_spec x t); lia.
Qed.

(** X19. On vectors of one size that are not empty, [cluster_acc] is at
    least the share of any single cell of the contingency table: the samples
    of predicted label [p] and true label [t], over all samples. *)
Theorem cluster_acc_at_least_largest_cell y_true y_pred :
  length y_pred = length y_true -> y_pred <> [] ->
  exists q,
    cluster_acc y_true y_pred = Ok q /\
    forall p t,
      (inject_Z (cooc y_pred y_true p t) / inject_Z (Z.of_nat (length y_pred))
       <= q)%Q.
Proof.
  intros Hlen Hne.
  destruct (cluster_acc_returns y_true y_pred Hlen Hne) as (sigma & [Hp Hopt] & ->).
  eexists. split; [done|]. intros p t.
  set (D := table_size y_true y_pred) in *.
  assert (cooc y_pred y_true p t <= score (cooc y_pred y_true) D sigma)%Z as Hcell.
  { destruct (decide (p < D /\ t < D)) as [[Hlt1 Hlt2]|Hout].
    - specialize (Hopt _ (exchange_is_assignment D p t Hlt1 Hlt2)).
      etransitivity; [|exact Hopt]. unfold score.
      pose proof (Zsum_map_term
        (fun i => cooc y_pred y_true i
           (nth i (map (fun i => if i =? p then t else if i =? t then p else i)
                     (seq 0 D)) 0)) (seq 0 D) p) as Hterm.
      cbv beta in Hterm. rewrite nth_map_seq, Nat.eqb_refl in Hterm by done.
      apply Hterm; [intros; apply cooc_nonneg|].
      apply list_elem_of_In, in_seq. lia.
    - destruct (labels_below_table_size y_true y_pred) as [Hpred Htrue].
      rewrite (cooc_outside D) by (try done; lia).
      apply score_bounds. }
  assert (0 < Z.of_nat (length y_pred))%Z as Hn
    by (destruct y_pred; simpl; [done|lia]).
  set (sc := score _ _ _) in *. set (n := Z.of_nat (length y_pred)) in *.
  set (a := cooc _ _ _ _) in *.
  assert (0 < inject_Z n)%Q as Hnq by (by rewrite (Zlt_Qlt 0 n) in Hn).
  assert (inject_Z a <= inject_Z sc)%Q as Hle by (by rewrite <- Zle_Qle).
  unfold Qdiv. apply Qmult_le_compat_r; [lra|].
  apply Qinv_le_0_compat. lra.
Qed.

(** * Worked runs *)

(** The duplicate scan reads the must-link lists only: a cannot-link pair can
    come back twice. *)
Example cannot_link_pairs_may_repeat :
  run labelled_cells 6 (replay [0; 1; 2; 2; 1; 3; 0; 1; 3; 2; 1; 3])
    (replay [0; 0; 2; 1; 1; 1])
  = Some (Ok (Pairs [3; 0] [2; 1] [1; 1] [3; 3])).
Proof. by vm_compute. Qed.

(** With exact arithmetic and an error rate of 0: three must-link pairs
    asked of two cells of one label, and the generator never returns. *)
Example generate_random_pair_infeasible_request fuel g np :
  @generate_random_pair QLib fuel [0; 0]%Z [0; 1] 3 0%Q g np = None.
Proof.
  unfold generate_random_pair.
  by rewrite random_pair_loop_infeasible_request.
Qed.

(** A capped loop that runs into its cap ends with the pairs found so far:
    with a cap of four attempts, three of them wasted on equal draws. *)
Example two_CDs_partial_at_cap :
  and_then (two_CDs_loop 4 10 two_genes 3 20%Q 50%Q (replay [0; 1]))
    (fun s => Ok (acc s, ctr s))
  = Some (Ok (Pairs [0] [1] [] [], (2, 4)%Z)).
Proof. by vm_compute. Qed.

Lemma must_link_pairs_never_repeat_witness :
  run labelled_cells 6 (replay [0; 1; 2; 2; 1; 3; 0; 1; 3; 2; 1; 3])
    (replay [0; 0; 2; 1; 1; 1])
  = Some (Ok (Pairs [3; 0] [2; 1] [1; 1] [3; 3])) /\
  NoDup (ml_pairs (Pairs [3; 0] [2; 1] [1; 1] [3; 3])).
Proof.
  split; [by vm_compute|].
  apply (proj2 (@must_link_pairs_never_repeat QLib) labelled_cells 6
           (replay [0; 1; 2; 2; 1; 3; 0; 1; 3; 2; 1; 3])
           (replay [0; 0; 2; 1; 1; 1])).
  by vm_compute.
Defined.

Lemma no_self_pairs_witness :
  let out := Pairs [0; 3] [1; 2] [1] [3] in
  run (FromTwoCDs two_genes 3 20 50)%Q 5
    (replay [0; 1; 2; 2; 1; 3; 0; 1; 3; 2]) (replay [1; 1; 1; 1])
  = Some (Ok out) /\
  Forall distinct (ml_pairs out) /\ Forall distinct (cl_pairs out).
Proof.
  split; [by vm_compute|].
  apply (@no_self_pairs QLib (FromTwoCDs two_genes 3 20 50)%Q 5
           (replay [0; 1; 2; 2; 1; 3; 0; 1; 3; 2]) (replay [1; 1; 1; 1])).
  by vm_compute.
Defined.

Lemma shuffles_keep_the_pairs_witness :
  let c := (FromEmbeddingClustering line_cells 3 2 (3 # 10) (7 # 10))%Q in
  let g := replay [0; 1; 2; 2; 1; 3; 0; 1; 3; 0; 2; 3] in
  let out := Pairs [1; 2] [3; 3] [3] [0] in
  run c 6 g (replay [1; 1; 1; 1]) = Some (Ok out) /\
  exists p ml_index cl_index,
    sample c 6 g = Some (Ok p) /\
    (ml_index ≡ₚ seq 0 (length (ml_ind1 p)) /\
     take_indices (ml_ind1 p) ml_index = Ok (ml_ind1 out) /\
     take_indices (ml_ind2 p) ml_index = Ok (ml_ind2 out) /\
     length (ml_ind1 out) = length (ml_ind2 out) /\
     ml_pairs out ≡ₚ ml_pairs p) /\
    (cl_index ≡ₚ seq 0 (length (cl_ind1 p)) /\
     take_indices (cl_ind1 p) cl_index = Ok (cl_ind1 out) /\
     take_indices (cl_ind2 p) cl_index = Ok (cl_ind2 out) /\
     length (cl_ind1 out) = length (cl_ind2 out) /\
     cl_pairs out ≡ₚ cl_pairs p).
Proof.
  intros c g out. split; [by vm_compute|].
  apply (@shuffles_keep_the_pairs QLib c 6 g (replay [1; 1; 1; 1]) out).
  by vm_compute.
Defined.

Lemma returned_indices_are_valid_witness :
  let c := @FromOneCD QLib one_gene 2 20%Q 50%Q 0 in
  let out := Pairs [2] [3] [2] [0] in
  run c 4 (replay [2; 3; 2; 0]) (replay []) = Some (Ok out) /\
  Forall (valid_index c) (ml_ind1 out) /\ Forall (valid_index c) (ml_ind2 out) /\
  Forall (valid_index c) (cl_ind1 out) /\ Forall (valid_index c) (cl_ind2 out).
Proof.
  intros c out. split; [by vm_compute|].
  apply (@returned_indices_are_valid QLib c 4 (replay [2; 3; 2; 0]) (replay [])).
  by vm_compute.
Defined.

Lemma proteins_pairs_respect_the_cutoffs_witness :
  let out := Pairs [0] [1] [1; 3] [3; 0] in
  generate_random_pair_from_proteins 6 line_cells 3 (3 # 10)%Q (7 # 10)%Q
    (replay [0; 1; 2; 2; 1; 3; 0; 1; 3; 0]) (replay [1; 1; 1; 1])
  = Some (Ok out) /\
  exists latent_dist cutoff_ML cutoff_CL,
    let latent_dist_vec :=
      filter (fun d => Fgt d Fzero = true) (concat (tril1 latent_dist)) in
    euclidean_distances (rows line_cells) (rows line_cells) = Ok latent_dist /\
    np_quantile latent_dist_vec (3 # 10)%Q = Ok cutoff_ML /\
    np_quantile latent_dist_vec (7 # 10)%Q = Ok cutoff_CL /\
    Forall (closer_than line_cells cutoff_ML) (ml_pairs out) /\
    Forall (farther_than line_cells cutoff_CL) (cl_pairs out).
Proof.
  intros out. split; [by vm_compute|].
  apply (proj1 (@proteins_pairs_respect_the_cutoffs QLib line_cells) 6 3%Z
           (3 # 10)%Q (7 # 10)%Q
           (replay [0; 1; 2; 2; 1; 3; 0; 1; 3; 0]) (replay [1; 1; 1; 1])).
  by vm_compute.
Defined.

Lemma cluster_acc_relabel_invariant_witness :
  let pi := fun x => 2 - x in
  length [2; 2; 1] = length [0; 0; 1] /\
  map pi (seq 0 3) ≡ₚ seq 0 3 /\
  cluster_acc [0; 0; 1] (map pi [2; 2; 1]) = cluster_acc [0; 0; 1] [2; 2; 1].
Proof.
  intros pi. split; [done|]. split; [exact (Permutation_rev [2; 1; 0])|].
  apply (cluster_acc_relabel_invariant [0; 0; 1] [2; 2; 1] pi); [done|].
  exact (Permutation_rev [2; 1; 0]).
Defined.

Lemma cluster_acc_outcomes_witness :
  let y_true := [0; 0; 1; 1] in
  let y_pred := [1; 1; 0; 0] in
  length y_pred = length y_true /\
  exists sigma q,
    cluster_acc y_true y_pred = Ok q /\
    optimal (cooc y_pred y_true) (table_size y_true y_pred) sigma /\
    q = (inject_Z (score (cooc y_pred y_true) (table_size y_true y_pred) sigma)
         * 1 / inject_Z (Z.of_nat (length y_pred)))%Q /\
    (0 <= q)%Q /\ (q <= 1)%Q.
Proof.
  intros y_true y_pred. split; [done|].
  apply (proj2 (cluster_acc_outcomes y_true y_pred)); done.
Defined.

(** ** Worked runs of the rules and edge cases *)

Lemma request_met_without_cap_witness :
  let g := replay [0; 1; 2; 2; 1; 3; 0; 1; 3; 2; 1; 3] in
  let np := replay [0; 0; 2; 1; 1; 1] in
  let out := Pairs [3; 0] [2; 1] [1; 1] [3; 3] in
  attempt_cap labelled_cells = None /\
  (0 <= requested labelled_cells)%Z /\
  run labelled_cells 6 g np = Some (Ok out) /\
  counted out = requested labelled_cells.
Proof.
  intros g np out. split; [done|]. split; [by vm_compute|].
  split; [by vm_compute|].
  apply (@request_met_without_cap QLib labelled_cells 6 g np out);
    [done|by vm_compute|by vm_compute].
Defined.

Lemma two_CDs_loop_count_witness :
  exists s,
    two_CDs_loop 4 10 two_genes 3 20%Q 50%Q (replay [0; 1]) = Some (Ok s) /\
    (counted (acc s) <= 3)%Z /\
    (((ctr s).2 < 4)%Z -> counted (acc s) = 3%Z).
Proof.
  eexists. split; [vm_compute; reflexivity|].
  apply (@two_CDs_loop_count QLib 4 10 two_genes 3 20%Q 50%Q (replay [0; 1]));
    [lia|vm_compute; reflexivity].
Defined.

Lemma one_CD_lists_fill_their_budgets_witness :
  exists s,
    one_CD_loop one_CD_cap 2 one_gene 1 20%Q 50%Q 0 (replay [2; 3; 2; 0])
      = Some (Ok s) /\
    ((2 * Z.of_nat (length (ml_pairs (acc s))) <= 1 + 1 /\
      2 * Z.of_nat (length (cl_pairs (acc s))) <= 1 + 1)%Z /\
     (((ctr s).2 < one_CD_cap)%Z ->
      (1 <= 2 * Z.of_nat (length (ml_pairs (acc s))) /\
       1 <= 2 * Z.of_nat (length (cl_pairs (acc s))))%Z)).
Proof.
  eexists. split; [vm_compute; reflexivity|].
  apply (@one_CD_lists_fill_their_budgets QLib one_CD_cap 2 one_gene 1
           20%Q 50%Q 0 (replay [2; 3; 2; 0]));
    [lia|vm_compute; reflexivity].
Defined.

Lemma run_returns_after_sample_witness :
  let c := @FromTwoCDs QLib two_genes 3 20%Q 50%Q in
  let g := replay [0; 1; 2; 2; 1; 3; 0; 1; 3; 2] in
  sample c 5 g = Some (Ok (Pairs [0; 3] [1; 2] [1] [3])) /\
  exists out, run c 5 g (replay [1; 1; 1; 1]) = Some (Ok out).
Proof.
  intros c g. split; [by vm_compute|].
  apply (@run_returns_after_sample QLib c 5 g (replay [1; 1; 1; 1])
           (Pairs [0; 3] [1; 2] [1] [3])).
  by vm_compute.
Defined.

Lemma error_num_counts_contradicted_pairs_witness :
  let y := [0; 0; 1; 1]%Z in
  let g := replay [0; 1; 2; 2; 1; 3; 0; 1; 3; 2; 1; 3] in
  let np := replay [0; 0; 2; 1; 1; 1] in
  let out := Pairs [3; 0] [2; 1] [1; 1] [3; 3] in
  @generate_random_pair QLib 6 y [0; 1; 2; 3] 4 0%Q g np = Some (Ok (out, 0%Z)) /\
  0%Z = mislabelled y out.
Proof.
  intros y g np out. split; [by vm_compute|].
  apply (@error_num_counts_contradicted_pairs QLib 6 y [0; 1; 2; 3] 4 0%Q g np).
  by vm_compute.
Defined.

Lemma no_error_budget_follows_labels_witness :
  let y := [0; 0; 1; 1]%Z in
  let g := replay [0; 1; 2; 2; 1; 3; 0; 1; 3; 2; 1; 3] in
  let np := replay [0; 0; 2; 1; 1; 1] in
  let out := Pairs [3; 0] [2; 1] [1; 1] [3; 3] in
  @Fle QLib (@Fmul QLib 0%Q (@Fint QLib 4)) (@Fint QLib 0) = true /\
  @generate_random_pair QLib 6 y [0; 1; 2; 3] 4 0%Q g np = Some (Ok (out, 0%Z)) /\
  0%Z = 0%Z /\
  Forall (same_label y) (ml_pairs out) /\ Forall (other_label y) (cl_pairs out).
Proof.
  intros y g np out. split; [done|]. split; [by vm_compute|].
  apply (@no_error_budget_follows_labels QLib 6 y [0; 1; 2; 3] 4 0%Q g np);
    [done|by vm_compute].
Defined.

Lemma clustering_pairs_follow_clusters_witness :
  let g := replay [0; 1; 2; 2; 1; 3; 0; 1; 3; 0; 2; 3] in
  let out := Pairs [1; 2] [3; 3] [3] [0] in
  generate_random_pair_from_embedding_clustering 6 line_cells 3 2
    (3 # 10)%Q (7 # 10)%Q g (replay [1; 1; 1; 1]) = Some (Ok out) /\
  exists y_pred cut,
    kmeans_labels 2 (rows line_cells) = Ok y_pred /\
    distance_cutoffs line_cells (3 # 10)%Q (7 # 10)%Q = Ok cut /\
    Forall (same_label y_pred) (ml_pairs out) /\
    Forall (fun ab => other_label y_pred ab /\ farther_than line_cells cut.2 ab)
      (cl_pairs out).
Proof.
  intros g out. split; [by vm_compute|].
  apply (@clustering_pairs_follow_clusters QLib 6 line_cells 3 2
           (3 # 10)%Q (7 # 10)%Q g (replay [1; 1; 1; 1])).
  by vm_compute.
Defined.

Lemma two_CDs_pairs_follow_quadrants_witness :
  let g := replay [0; 1; 2; 2; 1; 3; 0; 1; 3; 2] in
  let out := Pairs [0; 3] [1; 2] [1] [3] in
  generate_random_pair_from_two_CDs 5 two_genes 3 20%Q 50%Q g
    (replay [1; 1; 1; 1]) = Some (Ok out) /\
  exists th,
    two_CDs_thresholds two_genes 20%Q 50%Q = Ok th /\
    Forall (same_quadrant two_genes th) (ml_pairs out) /\
    Forall (opposite_quadrants two_genes th) (cl_pairs out).
Proof.
  intros g out. split; [by vm_compute|].
  apply (@two_CDs_pairs_follow_quadrants QLib 5 two_genes 3 20%Q 50%Q g
           (replay [1; 1; 1; 1])).
  by vm_compute.
Defined.

Lemma one_CD_pairs_follow_levels_witness :
  let out := Pairs [2] [3] [2] [0] in
  generate_random_pair_from_one_CD 4 one_gene 2 20%Q 50%Q 0
    (replay [2; 3; 2; 0]) (replay []) = Some (Ok out) /\
  exists th,
    one_CD_thresholds one_gene 20%Q 50%Q 0 = Ok th /\
    Forall (both_above one_gene 0 th) (ml_pairs out) /\
    Forall (above_and_below one_gene 0 th) (cl_pairs out).
Proof.
  intros out. split; [by vm_compute|].
  apply (@one_CD_pairs_follow_levels QLib 4 one_gene 2 20%Q 50%Q 0
           (replay [2; 3; 2; 0]) (replay [])).
  by vm_compute.
Defined.

Lemma CD_markers_pairs_follow_table_witness :
  let g := replay [0; 1; 1; 0; 2; 3; 7; 9; 4; 5; 6; 7; 8; 9] in
  let np := replay [0; 1; 0; 2; 1] in
  let out := Pairs [4; 8; 2; 6; 7] [5; 9; 3; 7; 9] [1; 0] [0; 1] in
  generate_random_pair_from_CD_markers 7 four_markers 7
    (4 # 10)%Q (6 # 10)%Q (2 # 10)%Q (8 # 10)%Q g np = Some (Ok out) /\
  exists c,
    CD_markers_cutoffs four_markers (4 # 10)%Q (6 # 10)%Q (2 # 10)%Q (8 # 10)%Q
      = Ok c /\
    Forall (table_says four_markers c MustLink) (ml_pairs out) /\
    Forall (table_says four_markers c CannotLink) (cl_pairs out).
Proof.
  intros g np out. split; [by vm_compute|].
  apply (@CD_markers_pairs_follow_table QLib 7 four_markers 7
           (4 # 10)%Q (6 # 10)%Q (2 # 10)%Q (8 # 10)%Q g np).
  by vm_compute.
Defined.

Lemma nothing_requested_nothing_returned_witness :
  (0 <= 0)%Z /\
  @generate_random_pair QLib 0 [] [] 0 0%Q (replay []) (replay [])
  = Some (Ok (no_pairs, 0%Z)).
Proof.
  split; [done|].
  apply (proj1 (@nothing_requested_nothing_returned QLib) 0 [] [] 0%Z 0%Q
           (replay []) (replay [])).
  done.
Defined.

Lemma no_samples_no_result_witness :
  let c := @RandomPair QLib [0; 1]%Z [] 1 0%Q in
  (forall i, ~ valid_index c i) /\ (0 < requested c)%Z /\
  exists e, run c 1 (replay []) (replay []) = Some (Raise e).
Proof.
  intros c.
  assert (forall i, ~ valid_index c i) as Hnone.
  { intros i Hi. by apply elem_of_nil in Hi. }
  split; [done|]. split; [done|].
  by apply (@no_samples_no_result QLib c 0 (replay []) (replay [])).
Defined.

Lemma missing_rows_raise_witness :
  shape0 one_gene < 2 /\
  exists err,
    generate_random_pair_from_two_CDs 5 one_gene 3 20%Q 50%Q
      (replay []) (replay []) = Some (Raise err).
Proof.
  split; [simpl; lia|].
  apply (proj1 (@missing_rows_raise QLib 5 one_gene 3%Z (replay []) (replay []))
           20%Q 50%Q).
  simpl. lia.
Defined.

Lemma cluster_acc_at_least_agreement_witness :
  let y_true := [0; 0; 1; 1] in
  let y_pred := [0; 1; 0; 1] in
  length y_pred = length y_true /\ y_pred <> [] /\
  exists q,
    cluster_acc y_true y_pred = Ok q /\
    (inject_Z (agreements y_pred y_true) / inject_Z (Z.of_nat (length y_pred))
     <= q)%Q.
Proof.
  intros y_true y_pred. split; [done|]. split; [done|].
  by apply (cluster_acc_at_least_agreement y_true y_pred).
Defined.

Lemma cluster_acc_perfect_under_renaming_witness :
  let y_true := [0; 0; 1] in
  let pi := fun x => 1 - x in
  y_true <> [] /\
  map pi (seq 0 (max_list y_true + 1)) ≡ₚ seq 0 (max_list y_true + 1) /\
  exists q, cluster_acc y_true (map pi y_true) = Ok q /\ (q == 1)%Q.
Proof.
  intros y_true pi. split; [done|]. split; [exact (Permutation_rev [1; 0])|].
  apply (cluster_acc_perfect_under_renaming y_true pi); [done|].
  exact (Permutation_rev [1; 0]).
Defined.

Lemma returned_pairs_index_the_labels_witness :
  let y := [0; 0; 1; 1]%Z in
  let g := replay [0; 1; 2; 2; 1; 3; 0; 1; 3; 2; 1; 3] in
  let np := replay [0; 0; 2; 1; 1; 1] in
  let out := Pairs [3; 0] [2; 1] [1; 1] [3; 3] in
  @generate_random_pair QLib 6 y [0; 1; 2; 3] 4 0%Q g np = Some (Ok (out, 0%Z)) /\
  Forall (labelled y) (ml_pairs out) /\ Forall (labelled y) (cl_pairs out).
Proof.
  intros y g np out. split; [by vm_compute|].
  apply (@returned_pairs_index_the_labels QLib 6 y [0; 1; 2; 3] 4 0%Q g np out 0%Z).
  by vm_compute.
Defined.

Lemma cluster_acc_at_least_largest_cell_witness :
  let y_true := [0; 0; 0; 1] in
  let y_pred := [1; 1; 0; 0] in
  length y_pred = length y_true /\ y_pred <> [] /\
  exists q,
    cluster_acc y_true y_pred = Ok q /\
    forall p t,
      (inject_Z (cooc y_pred y_true p t) / inject_Z (Z.of_nat (length y_pred))
       <= q)%Q.
Proof.
  intros y_true y_pred. split; [done|]. split; [done|].
  by apply (cluster_acc_at_least_largest_cell y_true y_pred).
Defined.
